(** * The rolling plotter of the level screen

    A shallow embedding of [Plotter::act] and [Plotter::draw]
    (src/graphics/ui/elements/Plotter.cpp) and of
    [LevelScreen::saveWorldPreview] (src/frontend/screens/LevelScreen.cpp).

    C++ [int] is a 32-bit signed integer carried by [Z]; every operation
    whose C++ behaviour is undefined (signed overflow, division by zero,
    a subscript outside the array, a float-to-int conversion whose value
    does not fit) yields [Undefined] instead of a value.  C++ [float] is
    IEEE-754 binary32, carried by [spec_float] with precision 24 and
    maximal exponent 128. *)

From Stdlib Require Import ZArith QArith Lia String.
From Stdlib Require Import Floats.SpecFloat.
From stdpp Require Import base list.

Local Open Scope Z_scope.

(** ** Undefined behaviour and the state monad *)

Inductive fault : Type :=
  | SignedOverflow
  | DivisionByZero
  | OutOfBounds
  | FloatToIntRange
  | LoopFuel.

Inductive result (A : Type) : Type :=
  | Ok (a : A)
  | Undefined (f : fault).

Arguments Ok {A} a.
Arguments Undefined {A} f.

Definition M (S A : Type) : Type := S → result (A * S).

#[global] Instance M_ret {S} : MRet (M S) :=
  λ A a s, Ok (a, s).

#[global] Instance M_bind {S} : MBind (M S) :=
  λ A B k m s,
    match m s with
    | Ok (a, s') => k a s'
    | Undefined f => Undefined f
    end.

Definition gets {S A} (f : S → A) : M S A := λ s, Ok (f s, s).

Definition modify {S} (f : S → S) : M S unit := λ s, Ok (tt, f s).

Definition lift {S A} (r : result A) : M S A :=
  λ s, match r with Ok a => Ok (a, s) | Undefined f => Undefined f end.

(** ** 32-bit signed integers *)

Definition INT_MIN : Z := - 2 ^ 31.
Definition INT_MAX : Z := 2 ^ 31 - 1.

Definition in_int (z : Z) : bool := (INT_MIN <=? z) && (z <=? INT_MAX).

Definition int_add (a b : Z) : result Z :=
  if in_int (a + b) then Ok (a + b) else Undefined SignedOverflow.

(** C++ [a / b] and [a % b] truncate towards zero: [Z.quot] and [Z.rem]. *)
Definition int_div (a b : Z) : result Z :=
  if b =? 0 then Undefined DivisionByZero
  else if (a =? INT_MIN) && (b =? -1) then Undefined SignedOverflow
  else Ok (Z.quot a b).

Definition int_rem (a b : Z) : result Z :=
  if b =? 0 then Undefined DivisionByZero
  else if (a =? INT_MIN) && (b =? -1) then Undefined SignedOverflow
  else Ok (Z.rem a b).

(** ** binary32 floats *)

Definition float : Type := spec_float.

Definition fmul : float → float → float := SFmul 24 128.
Definition fadd : float → float → float := SFadd 24 128.
Definition fsub : float → float → float := SFsub 24 128.
Definition fdiv : float → float → float := SFdiv 24 128.

(** The implicit conversion of an [int] operand to [float]. *)
Definition float_of_int (z : Z) : float := binary_normalize 24 128 z 0 false.

(** The exact rational value of a finite float. *)
Definition float_value (x : float) : option Q :=
  match x with
  | S754_zero _ => Some (0 # 1)%Q
  | S754_finite s m e =>
      let n := cond_Zopp s (Zpos m) in
      Some match e with
           | Z0 => (n # 1)%Q
           | Zpos k => (n * 2 ^ Zpos k # 1)%Q
           | Zneg k => (n # 2 ^ k)%Q
           end
  | S754_infinity _ | S754_nan => None
  end.

(** Truncation of a rational towards zero. *)
Definition Qtrunc (q : Q) : Z := Z.quot (Qnum q) (Zpos (Qden q)).

(** [static_cast<int>(x)]: the fractional part is discarded; the behaviour
    is undefined when [x] is not finite or the truncated value is not an
    [int]. *)
Definition int_of_float (x : float) : result Z :=
  match float_value x with
  | Some q => if in_int (Qtrunc q) then Ok (Qtrunc q) else Undefined FloatToIntRange
  | None => Undefined FloatToIntRange
  end.

(** ** The plotter *)

Record vec2 : Type := Vec2 { vx : float; vy : float }.

Record vec4 : Type := Vec4 { cr : float; cg : float; cb : float; ca : float }.

(** Modelled from the spec: the class declaration (Plotter.hpp) is not at
    hand.  The sample buffer is an array of integer magnitudes, the write
    cursor and the display geometry are integers, the scale factor is a
    float; [size] is the node's size and [position] the on-screen anchor
    that the layout policy ([calcPos]) yields. *)
Record Plotter : Type := mkPlotter {
  points : list Z;
  multiplier : float;
  index : Z;
  dmwidth : Z;
  dmheight : Z;
  labelsInterval : Z;
  size : vec2;
  position : vec2
}.

Definition set_index (i : Z) (p : Plotter) : Plotter :=
  mkPlotter (points p) (multiplier p) i (dmwidth p) (dmheight p)
            (labelsInterval p) (size p) (position p).

Definition set_points (l : list Z) (p : Plotter) : Plotter :=
  mkPlotter l (multiplier p) (index p) (dmwidth p) (dmheight p)
            (labelsInterval p) (size p) (position p).

(** [points[j]] read and written; a subscript outside the array is
    undefined behaviour. *)
Definition load_point (j : Z) : M Plotter Z :=
  λ p, if 0 <=? j
       then match points p !! Z.to_nat j with
            | Some v => Ok (v, p)
            | None => Undefined OutOfBounds
            end
       else Undefined OutOfBounds.

Definition store_point (j v : Z) : M Plotter unit :=
  λ p, if (0 <=? j) && (j <? Z.of_nat (length (points p)))
       then Ok (tt, set_points (<[Z.to_nat j := v]> (points p)) p)
       else Undefined OutOfBounds.

(** [Plotter::act]:
<<
    index = index + 1 % dmwidth;
    int value = static_cast<int>(delta * multiplier);
    points[index % dmwidth] = std::min(value, dmheight);
>>
    [%] binds tighter than [+]: the first statement adds [1 % dmwidth]. *)
Definition act (delta : float) : M Plotter unit :=
  i ← gets index;
  w ← gets dmwidth;
  r ← lift (int_rem 1 w);
  i' ← lift (int_add i r);
  modify (set_index i');;
  m ← gets multiplier;
  value ← lift (int_of_float (fmul delta m));
  i ← gets index;
  w ← gets dmwidth;
  j ← lift (int_rem i w);
  h ← gets dmheight;
  store_point j (Z.min value h).

(** One sampling tick per element of [ds], in order. *)
Fixpoint run (ds : list float) : M Plotter unit :=
  match ds with
  | [] => mret tt
  | d :: ds' => act d;; run ds'
  end.

(** The magnitude that [act] stores for the sample [delta]. *)
Definition magnitude (p : Plotter) (delta : float) : result Z :=
  match int_of_float (fmul delta (multiplier p)) with
  | Ok value => Ok (Z.min value (dmheight p))
  | Undefined f => Undefined f
  end.

(** ** The drawing surface

    Modelled from the spec: Batch2D and Font are collaborators whose
    sources (graphics/core) are not at hand.  The surface keeps a current
    texture (nullable), a line width and a persistent draw colour, and
    records what it is asked to draw: a line segment carries its own colour,
    a rectangle outline and a string are drawn in the persistent colour.
    [util::to_wstring] (util/stringutil) is not at hand either: a [Text]
    call records the value and the precision handed to it. *)
Inductive DrawCall : Type :=
  | Line (x1 y1 x2 y2 r g b a : float)
  | LineRect (x y w h : float) (c : vec4)
  | Text (font : string) (value : float) (precision : Z) (x y : float) (c : vec4).

Record Batch2D : Type := mkBatch {
  texture : option N;
  lineWidth : float;
  color : vec4;
  calls : list DrawCall
}.

Definition emit (c : DrawCall) (b : Batch2D) : Batch2D :=
  mkBatch (texture b) (lineWidth b) (color b) (calls b ++ [c]).

Definition batch_texture (t : option N) : M Batch2D unit :=
  modify (λ b, mkBatch t (lineWidth b) (color b) (calls b)).

Definition batch_lineWidth (w : float) : M Batch2D unit :=
  modify (λ b, mkBatch (texture b) w (color b) (calls b)).

Definition batch_setColor (c : vec4) : M Batch2D unit :=
  modify (λ b, mkBatch (texture b) (lineWidth b) c (calls b)).

Definition batch_line (x1 y1 x2 y2 r g b a : float) : M Batch2D unit :=
  modify (emit (Line x1 y1 x2 y2 r g b a)).

Definition batch_lineRect (x y w h : float) : M Batch2D unit :=
  modify (λ b, emit (LineRect x y w h (color b)) b).

Definition font_draw (font : string) (value : float) (precision : Z)
    (x y : float) : M Batch2D unit :=
  modify (λ b, emit (Text font value precision x y (color b)) b).

(** [draw] runs on the plotter and the surface together. *)
Definition World : Type := Plotter * Batch2D.

Definition self {A} (m : M Plotter A) : M World A :=
  λ w, match m (fst w) with
       | Ok (a, p') => Ok (a, (p', snd w))
       | Undefined f => Undefined f
       end.

Definition batch {A} (m : M Batch2D A) : M World A :=
  λ w, match m (snd w) with
       | Ok (a, b') => Ok (a, (fst w, b'))
       | Undefined f => Undefined f
       end.

(** [for (int i = i0; cond(i); i = step(i)) body(i)], condition and step
    evaluated in the current state at every round.  [fuel] bounds the
    number of evaluations of the condition. *)
Fixpoint for_loop {S} (fuel : nat) (cond : Z → M S bool) (step : Z → M S Z)
    (body : Z → M S unit) (i : Z) : M S unit :=
  match fuel with
  | O => lift (Undefined LoopFuel)
  | Datatypes.S fuel' =>
      c ← cond i;
      if c : bool
      then body i;; i' ← step i; for_loop fuel' cond step body i'
      else mret tt
  end.

Definition one : float := float_of_int 1.
Definition alpha_low : float := fdiv (float_of_int 1) (float_of_int 5).
Definition alpha_high : float := fdiv (float_of_int 1) (float_of_int 2).
Definition lowlight : vec4 := Vec4 one one one alpha_low.
Definition highlight : vec4 := Vec4 one one one alpha_high.

(** Modelled from the spec: [UINode::calcPos] is not at hand; it yields
    the anchor the layout policy derived, here the field [position]. *)
Definition calcPos : M Plotter vec2 := gets position.

(** First loop of [Plotter::draw]:
<<
    for (int i = index+1; i < index+dmwidth; i++) {
        int j = i % dmwidth;
        batch->line(pos.x + i - index, pos.y + size.y - points[j],
                    pos.x + i - index, pos.y + size.y, 1.0f, 1.0f, 1.0f, 0.2f);
    }
>> *)
Definition draw_bar (pos : vec2) (i : Z) : M World unit :=
  w ← self (gets dmwidth);
  j ← lift (int_rem i w);
  idx ← self (gets index);
  sz ← self (gets size);
  pj ← self (load_point j);
  let x := fsub (fadd (vx pos) (float_of_int i)) (float_of_int idx) in
  let base := fadd (vy pos) (vy sz) in
  batch (batch_line x (fsub base (float_of_int pj)) x base one one one alpha_low).

Definition draw_bars (pos : vec2) : M World unit :=
  idx ← self (gets index);
  i0 ← lift (int_add idx 1);
  w0 ← self (gets dmwidth);
  for_loop (S (Z.to_nat (w0 - 1)))
    (λ i, idx ← self (gets index);
          w ← self (gets dmwidth);
          bound ← lift (int_add idx w);
          mret (i <? bound))
    (λ i, lift (int_add i 1))
    (draw_bar pos)
    i0.

(** <<
    batch->setColor({1,1,1,0.2f});
    batch->lineRect(pos.x, pos.y, dmwidth, dmheight);
>> *)
Definition draw_outline (pos : vec2) : M World unit :=
  batch (batch_setColor lowlight);;
  w ← self (gets dmwidth);
  h ← self (gets dmheight);
  batch (batch_lineRect (vx pos) (vy pos) (float_of_int w) (float_of_int h)).

(** <<
    for (int y = 0; y < dmheight; y += 16) {
        batch->line(pos.x+dmwidth-4, pos.y+dmheight-y,
                    pos.x+dmwidth+4, pos.y+dmheight-y, 1.0f, 1.0f, 1.0f, 0.2f);
    }
>> *)
Definition draw_tick (pos : vec2) (y : Z) : M World unit :=
  w ← self (gets dmwidth);
  h ← self (gets dmheight);
  let ty := fsub (fadd (vy pos) (float_of_int h)) (float_of_int y) in
  batch (batch_line
           (fsub (fadd (vx pos) (float_of_int w)) (float_of_int 4)) ty
           (fadd (fadd (vx pos) (float_of_int w)) (float_of_int 4)) ty
           one one one alpha_low).

Definition draw_ticks (pos : vec2) : M World unit :=
  h0 ← self (gets dmheight);
  for_loop (S (Z.to_nat h0))
    (λ y, h ← self (gets dmheight); mret (y <? h))
    (λ y, lift (int_add y 16))
    (draw_tick pos)
    0.

(** <<
    for (int y = 0; y < dmheight; y += labelsInterval) {
        std::wstring string;
        if (current_point/16 == y/labelsInterval) {
            batch->setColor({1,1,1,0.5f});
            string = util::to_wstring(current_point / multiplier, 3);
        } else {
            batch->setColor({1,1,1,0.2f});
            string = util::to_wstring(y / multiplier, 3);
        }
        font->draw(batch, string, pos.x+dmwidth+2, pos.y+dmheight-y-labelsInterval);
    }
>> *)
Definition draw_label (pos : vec2) (current_point : Z) (y : Z) : M World unit :=
  li ← self (gets labelsInterval);
  row_of_point ← lift (int_div current_point 16);
  row ← lift (int_div y li);
  m ← self (gets multiplier);
  value ←
    (if row_of_point =? row
     then batch (batch_setColor highlight);;
          mret (fdiv (float_of_int current_point) m)
     else batch (batch_setColor lowlight);;
          mret (fdiv (float_of_int y) m));
  w ← self (gets dmwidth);
  h ← self (gets dmheight);
  batch (font_draw "normal" value 3
           (fadd (fadd (vx pos) (float_of_int w)) (float_of_int 2))
           (fsub (fsub (fadd (vy pos) (float_of_int h)) (float_of_int y))
                 (float_of_int li))).

(** The stride of the last loop is [labelsInterval]; the fuel covers every
    run with a positive stride.  With a stride below 1 the source either
    divides by zero or counts down until [y] overflows: undefined in both
    cases, as here. *)
Definition draw_labels (pos : vec2) (current_point : Z) : M World unit :=
  h0 ← self (gets dmheight);
  for_loop (S (Z.to_nat h0))
    (λ y, h ← self (gets dmheight); mret (y <? h))
    (λ y, li ← self (gets labelsInterval); lift (int_add y li))
    (draw_label pos current_point)
    0.

(** [Plotter::draw]. *)
Definition draw : M World unit :=
  pos ← self calcPos;
  batch (batch_texture None);;
  batch (batch_lineWidth (float_of_int 1));;
  draw_bars pos;;
  draw_outline pos;;
  draw_ticks pos;;
  idx ← self (gets index);
  w ← self (gets dmwidth);
  j ← lift (int_rem idx w);
  current_point ← self (load_point j);
  draw_labels pos current_point.

(** [n] render ticks in a row, no sampling tick in between. *)
Fixpoint redraw (n : nat) : M World unit :=
  match n with
  | O => mret tt
  | Datatypes.S n' => draw;; redraw n'
  end.

(** ** What a render tick puts on the surface

    The calls of one [draw], column by column and row by row; [draw_frame]
    below proves that [draw] emits exactly these. *)

(** The slot that the subscript [i % dmwidth] selects, and its content. *)
Definition slot (p : Plotter) (i : Z) : nat := Z.to_nat (Z.rem i (dmwidth p)).

Definition point_at (p : Plotter) (i : Z) : Z := default 0 (points p !! slot p i).

(** The vertical bar of height [m] in column [c], counted from the left
    edge of the chart: the call of the loop round [i = index + c]. *)
Definition column_bar (p : Plotter) (c m : Z) : DrawCall :=
  let x := fsub (fadd (vx (position p)) (float_of_int (index p + c)))
                (float_of_int (index p)) in
  let base := fadd (vy (position p)) (vy (size p)) in
  Line x (fsub base (float_of_int m)) x base one one one alpha_low.

Definition bars (p : Plotter) : list DrawCall :=
  (λ c, column_bar p c (point_at p (index p + c))) <$> seqZ 1 (dmwidth p - 1).

Definition outline (p : Plotter) : DrawCall :=
  LineRect (vx (position p)) (vy (position p))
           (float_of_int (dmwidth p)) (float_of_int (dmheight p)) lowlight.

(** The values [y, y + s, y + 2s, ...] below [hi], at most [n] of them. *)
Fixpoint strides (n : nat) (y s hi : Z) : list Z :=
  match n with
  | O => []
  | S n' => if y <? hi then y :: strides n' (y + s) s hi else []
  end.

Definition rows (h s : Z) : list Z := strides (Z.to_nat h) 0 s h.

Definition tick (p : Plotter) (y : Z) : DrawCall :=
  let ty := fsub (fadd (vy (position p)) (float_of_int (dmheight p)))
                 (float_of_int y) in
  Line (fsub (fadd (vx (position p)) (float_of_int (dmwidth p))) (float_of_int 4)) ty
       (fadd (fadd (vx (position p)) (float_of_int (dmwidth p))) (float_of_int 4)) ty
       one one one alpha_low.

Definition current_point (p : Plotter) : Z := point_at p (index p).

(** The test of the last loop: [current_point/16 == y/labelsInterval]. *)
Definition row_matches (p : Plotter) (y : Z) : bool :=
  Z.quot (current_point p) 16 =? Z.quot y (labelsInterval p).

Definition label_color (p : Plotter) (y : Z) : vec4 :=
  if row_matches p y then highlight else lowlight.

Definition label (p : Plotter) (y : Z) : DrawCall :=
  Text "normal"
       (fdiv (float_of_int (if row_matches p y then current_point p else y))
             (multiplier p))
       3
       (fadd (fadd (vx (position p)) (float_of_int (dmwidth p))) (float_of_int 2))
       (fsub (fsub (fadd (vy (position p)) (float_of_int (dmheight p)))
                   (float_of_int y))
             (float_of_int (labelsInterval p)))
       (label_color p y).

Definition labels (p : Plotter) : list DrawCall :=
  label p <$> rows (dmheight p) (labelsInterval p).

Definition frame (p : Plotter) : list DrawCall :=
  bars p ++ outline p :: (tick p <$> rows (dmheight p) 16) ++ labels p.

(** The surface after a render tick. *)
Definition painted (p : Plotter) (b : Batch2D) : Batch2D :=
  mkBatch None (float_of_int 1)
          (default lowlight (last (label_color p <$> rows (dmheight p) (labelsInterval p))))
          (calls b ++ frame p).

(** The surface after the calls [cs], colour and pen untouched. *)
Definition emits (cs : list DrawCall) (b : Batch2D) : Batch2D :=
  mkBatch (texture b) (lineWidth b) (color b) (calls b ++ cs).

(** The upper end of a bar. *)
Definition bar_top (c : DrawCall) : option float :=
  match c with
  | Line _ y1 _ _ _ _ _ _ => Some y1
  | _ => None
  end.

#[global] Instance float_eq_dec : EqDecision float.
Proof. solve_decision. Defined.

#[global] Instance vec4_eq_dec : EqDecision vec4.
Proof. solve_decision. Defined.

(** A label drawn in the highlighted (higher-opacity) style. *)
Definition highlighted (c : DrawCall) : bool :=
  match c with
  | Text _ _ _ _ _ col => bool_decide (col = highlight)
  | _ => false
  end.

(** The state after [act] moved the cursor to [i'] and stored the clamped
    [value] there. *)
Definition written (p : Plotter) (i' value : Z) : Plotter :=
  set_points (<[slot p i' := Z.min value (dmheight p)]> (points p)) (set_index i' p).

(** The cursor after [t] sampling ticks: each tick adds [1 % dmwidth]. *)
Definition cursor_after (p : Plotter) (t : nat) : Z :=
  index p + Z.of_nat t * Z.rem 1 (dmwidth p).

(** Everything but the buffer content and the cursor. *)
Definition same_geometry (p p' : Plotter) : Prop :=
  multiplier p' = multiplier p ∧ dmwidth p' = dmwidth p ∧
  dmheight p' = dmheight p ∧ labelsInterval p' = labelsInterval p ∧
  size p' = size p ∧ position p' = position p ∧
  length (points p') = length (points p).

(** A computation of [draw] that, when it returns, hands the plotter back
    as it received it. *)
Definition keeps_plotter {A} (m : M World A) : Prop :=
  ∀ w a w', m w = Ok (a, w') → fst w' = fst w.

(** ** States in which the operations are defined *)

(** The buffer has [dmwidth] slots and the cursor is a non-negative [int]. *)
Definition well_formed (p : Plotter) : Prop :=
  1 ≤ dmwidth p ∧ Z.of_nat (length (points p)) = dmwidth p ∧
  0 ≤ index p ∧ index p ≤ INT_MAX.

(** The conversion of [delta * multiplier] to [int] is defined. *)
Definition castable (p : Plotter) (delta : float) : Prop :=
  ∃ value, int_of_float (fmul delta (multiplier p)) = Ok value.

(** No arithmetic of [draw] overflows and its last loop advances. *)
Definition drawable (p : Plotter) : Prop :=
  well_formed p ∧ index p + dmwidth p ≤ INT_MAX ∧
  1 ≤ labelsInterval p ∧ dmheight p + labelsInterval p ≤ INT_MAX + 1 ∧
  dmheight p + 16 ≤ INT_MAX + 1.

(** ** The spec's reading of the stored magnitude

    [round(deltaValue * scaleFactor)], to the nearest integer, halves away
    from zero, then clamped from above as [act] does. *)
Definition spec_round (q : Q) : Z :=
  Z.quot (2 * Qnum q + Z.sgn (Qnum q) * Zpos (Qden q)) (2 * Zpos (Qden q)).

Definition spec_magnitude (p : Plotter) (delta : float) : option Z :=
  match float_value (fmul delta (multiplier p)) with
  | Some q => Some (Z.min (spec_round q) (dmheight p))
  | None => None
  end.

(** ** Concrete plotters *)

Definition zero2 : vec2 := Vec2 (S754_zero false) (S754_zero false).

(** A plotter as the spec's example builds it: [w] zeroed slots, cursor 0. *)
Definition fresh (w h : Z) (scale : float) (interval : Z) : Plotter :=
  mkPlotter (replicate (Z.to_nat w) 0) scale 0 w h interval
            (Vec2 (float_of_int w) (float_of_int h)) zero2.

Definition ratio (a b : Z) : float := fdiv (float_of_int a) (float_of_int b).

Definition example_samples : list float :=
  [ratio 1 100; ratio 5 100; ratio 2 10; ratio 9 100; ratio 3 100].

Definition plotter_result (r : result (unit * Plotter)) : option (list Z * Z) :=
  match r with
  | Ok (_, p) => Some (points p, index p)
  | Undefined _ => None
  end.

(** The spec's example plotter, before and after its five samples. *)
Definition example_plotter : Plotter := fresh 5 100 (float_of_int 1000) 16.

Definition sampled_plotter : Plotter :=
  mkPlotter [30; 10; 50; 100; 90] (float_of_int 1000) 5 5 100 16
            (Vec2 (float_of_int 5) (float_of_int 100)) zero2.

(** A plotter with scale factor 1. *)
Definition unit_plotter : Plotter := fresh 5 100 (float_of_int 1) 16.

(** The sample 2.75 and the exact value of its product with the scale
    factor 1, as [float_value] yields it. *)
Definition sample_2_75 : float := ratio 11 4.

Definition value_2_75 : Q := 11534336 # 4194304.

(** A frame time of 3000000 seconds. *)
Definition huge_sample : float := float_of_int 3000000.

(** The example plotter one sample earlier. *)
Definition four_samples_plotter : Plotter :=
  mkPlotter [0; 10; 50; 100; 90] (float_of_int 1000) 4 5 100 16
            (Vec2 (float_of_int 5) (float_of_int 100)) zero2.

(** A chart of height 32: two label rows, at 0 and at 16. *)
Definition short_plotter : Plotter := fresh 5 32 (float_of_int 1000) 16.

Definition blank : Batch2D :=
  mkBatch None (S754_zero false) (Vec4 (S754_zero false) (S754_zero false)
                                       (S754_zero false) (S754_zero false)) [].

(** ** [LevelScreen::saveWorldPreview]

    A C++ call either returns or throws; what it did to the program state
    before throwing stays done. *)

Inductive thrown : Type :=
  | std_exception (what : string)
  | foreign_throwable.

Inductive outcome (A : Type) : Type :=
  | Returned (a : A)
  | Threw (e : thrown).

Arguments Returned {A} a.
Arguments Threw {A} e.

Definition X (S A : Type) : Type := S → outcome A * S.

#[global] Instance X_ret {S} : MRet (X S) :=
  λ A a s, (Returned a, s).

#[global] Instance X_bind {S} : MBind (X S) :=
  λ A B k m s,
    match m s with
    | (Returned a, s') => k a s'
    | (Threw e, s') => (Threw e, s')
    end.

(** [try { body } catch (const std::exception& err) { handler(err.what()) }]:
    anything that is not a [std::exception] passes through. *)
Definition try_catch_std {S A} (body : X S A) (handler : string → X S A) : X S A :=
  λ s, match body s with
       | (Threw (std_exception what), s') => handler what s'
       | r => r
       end.

Inductive LogLine : Type :=
  | Info (text : string)
  | Error (text : string).

(** The program state: the journal of the logger and the rest (engine,
    renderer, file system). *)
Record Env (R : Type) : Type := mkEnv { journal : list LogLine; rest : R }.

Arguments mkEnv {R} journal rest.
Arguments journal {R} e.
Arguments rest {R} e.

(** Modelled from the spec: debug::Logger is not at hand; a logged line is
    appended to the journal. *)
Definition logger_info {R} (text : string) : X (Env R) unit :=
  λ e, (Returned tt, mkEnv (journal e ++ [Info text]) (rest e)).

Definition logger_error {R} (text : string) : X (Env R) unit :=
  λ e, (Returned tt, mkEnv (journal e ++ [Error text]) (rest e)).

(** A call into a collaborator acts on the rest of the state. *)
Definition call {R A} (f : R → outcome A * R) : X (Env R) A :=
  λ e, let '(r, s) := f (rest e) in (r, mkEnv (journal e) s).

(** The collaborators of the export (engine, controller, renderer, image
    writer), none of them at hand: each call acts on the rest of the state
    and returns or throws. *)
Record Collaborators : Type := {
  R : Type;
  Paths : Type;
  Player : Type;
  Camera : Type;
  Settings : Type;
  Viewport : Type;
  GfxContext : Type;
  Image : Type;
  File : Type;
  engine_getPaths : R → outcome Paths * R;
  controller_getPlayer : R → outcome Player * R;
  player_camera : Player → Camera;
  engine_getSettings : R → outcome Settings * R;
  worldPreviewSize_get : Settings → R → outcome Z * R;
  new_Viewport : Z → R → outcome Viewport * R;
  new_GfxContext : Viewport → R → outcome GfxContext * R;
  worldRenderer_draw : GfxContext → Camera → bool → R → outcome unit * R;
  postProcessing_toImage : R → outcome Image * R;
  image_flipY : Image → R → outcome unit * R;
  paths_resolve : Paths → string → R → outcome File * R;
  imageio_write : File → Image → R → outcome unit * R
}.

(** The block guarded by [try]:
<<
    logger.info() << "saving world preview";
    auto paths = engine->getPaths();
    auto player = controller->getPlayer();
    auto camera = player->camera;
    auto& settings = engine->getSettings();
    int previewSize = settings.ui.worldPreviewSize.get();
    Viewport viewport(previewSize * 1.5, previewSize);
    GfxContext ctx(nullptr, viewport, batch.get());
    worldRenderer->draw(ctx, camera.get(), false, postProcessing.get());
    auto image = postProcessing->toImage();
    image->flipY();
    imageio::write(paths->resolve("world:preview.png"), image.get());
>> *)
Definition export_preview (c : Collaborators) : X (Env (R c)) unit :=
  logger_info "saving world preview";;
  paths ← call (engine_getPaths c);
  player ← call (controller_getPlayer c);
  let camera := player_camera c player in
  settings ← call (engine_getSettings c);
  previewSize ← call (worldPreviewSize_get c settings);
  viewport ← call (new_Viewport c previewSize);
  ctx ← call (new_GfxContext c viewport);
  call (worldRenderer_draw c ctx camera false);;
  image ← call (postProcessing_toImage c);
  call (image_flipY c image);;
  file ← call (paths_resolve c paths "world:preview.png");
  call (imageio_write c file image).

(** [LevelScreen::saveWorldPreview]:
<<
    try { ... } catch (const std::exception& err) { logger.error() << err.what(); }
>> *)
Definition saveWorldPreview (c : Collaborators) : X (Env (R c)) unit :=
  try_catch_std (export_preview c) (λ what, logger_error what).

(** Collaborators of which the last one, writing the file, throws. *)
Definition failing_disk : Collaborators := {|
  R := unit; Paths := unit; Player := unit; Camera := unit; Settings := unit;
  Viewport := unit; GfxContext := unit; Image := unit; File := unit;
  engine_getPaths := λ r, (Returned tt, r);
  controller_getPlayer := λ r, (Returned tt, r);
  player_camera := λ _, tt;
  engine_getSettings := λ r, (Returned tt, r);
  worldPreviewSize_get := λ _ r, (Returned 64, r);
  new_Viewport := λ _ r, (Returned tt, r);
  new_GfxContext := λ _ r, (Returned tt, r);
  worldRenderer_draw := λ _ _ _ r, (Returned tt, r);
  postProcessing_toImage := λ r, (Returned tt, r);
  image_flipY := λ _ r, (Returned tt, r);
  paths_resolve := λ _ _ r, (Returned tt, r);
  imageio_write := λ _ _ r, (Threw (std_exception "cannot open file"), r)
|}.

(** ** The rest of [LevelScreen]: hotkeys, the frame update, the destructor,
    the frame and the shutdown *)

(** The keys [updateHotkeys] asks about. *)
Inductive keycode : Type := key_O | key_F1 | key_F3 | key_F5.

(** The three switches the hotkeys flip: [settings.graphics.frustumCulling],
    the member [hudVisible] and the player's [debug]. *)
Record Flags : Type := mkFlags {
  frustumCulling : bool;
  hudVisible : bool;
  debug : bool
}.

(** The screen: its switches, and the program state of the export above. *)
Record Screen (R : Type) : Type := mkScreen { flags : Flags; env : Env R }.

Arguments mkScreen {R} flags env.
Arguments flags {R} s.
Arguments env {R} s.

(** The collaborators of the remaining functions, over the same program
    state as those of the export, none of them at hand.  Queries
    ([Events::jpressed], [Hud::isPause], [Hud::isInventoryOpen],
    [GUI::isFocusCaught]) read the state; the other calls act on it and
    return or throw.  None of them writes the three switches. *)
Record Frontend (c : Collaborators) : Type := {
  Events_jpressed : keycode → R c → bool;
  hud_isPause : R c → bool;
  hud_isInventoryOpen : R c → bool;
  gui_isFocusCaught : R c → bool;
  chunks_saveAndClear : R c → outcome unit * R c;
  audio_setPaused : string → bool → R c → outcome unit * R c;
  audio_set_listener : Camera c → Player c → R c → outcome unit * R c;
  world_updateTimers : float → R c → outcome unit * R c;
  animator_update : float → R c → outcome unit * R c;
  controller_update : float → bool → bool → R c → outcome unit * R c;
  hud_update : bool → R c → outcome unit * R c;
  scripting_on_frontend_close : R c → outcome unit * R c;
  controller_onWorldQuit : R c → outcome unit * R c;
  paths_setWorldFolder : Paths c → R c → outcome unit * R c
}.

Arguments Events_jpressed {c} f key r.
Arguments hud_isPause {c} f r.
Arguments hud_isInventoryOpen {c} f r.
Arguments gui_isFocusCaught {c} f r.
Arguments chunks_saveAndClear {c} f r.
Arguments audio_setPaused {c} f channel paused r.
Arguments audio_set_listener {c} f camera player r.
Arguments world_updateTimers {c} f delta r.
Arguments animator_update {c} f delta r.
Arguments controller_update {c} f delta input pause r.
Arguments hud_update {c} f visible r.
Arguments scripting_on_frontend_close {c} f r.
Arguments controller_onWorldQuit {c} f r.
Arguments paths_setWorldFolder {c} f paths r.

(** The collaborators of [LevelScreen::draw] and
    [LevelScreen::onEngineShutdown], none of them at hand either. *)
Record Renderer (c : Collaborators) : Type := {
  player_currentCamera : Player c → Camera c;
  window_viewport : R c → outcome (Viewport c) * R c;
  hud_draw : GfxContext c → R c → outcome unit * R c;
  controller_saveWorld : R c → outcome unit * R c
}.

Arguments player_currentCamera {c} _ _.
Arguments window_viewport {c} _ _.
Arguments hud_draw {c} _ _ _.
Arguments controller_saveWorld {c} _ _.

Module LevelScreen.

(** A computation on the program state, run by the screen. *)
Definition in_env {R A} (m : X (Env R) A) : X (Screen R) A :=
  λ s, let '(r, e) := m (env s) in (r, mkScreen (flags s) e).

(** A query of the program state. *)
Definition ask {R A} (q : R → A) : X (Screen R) A :=
  λ s, (Returned (q (rest (env s))), s).

Definition flag {R} (f : Flags → bool) : X (Screen R) bool :=
  λ s, (Returned (f (flags s)), s).

Definition set_flags {R} (f : Flags → Flags) : X (Screen R) unit :=
  λ s, (Returned tt, mkScreen (f (flags s)) (env s)).

Definition toggle_frustumCulling (f : Flags) : Flags :=
  mkFlags (negb (frustumCulling f)) (hudVisible f) (debug f).

Definition toggle_hudVisible (f : Flags) : Flags :=
  mkFlags (frustumCulling f) (negb (hudVisible f)) (debug f).

Definition toggle_debug (f : Flags) : Flags :=
  mkFlags (frustumCulling f) (hudVisible f) (negb (debug f)).

(** [if (b) { m }]. *)
Definition when {S} (b : bool) (m : X S unit) : X S unit :=
  if b then m else mret tt.

(** [LevelScreen::updateHotkeys]:
<<
    auto& settings = engine->getSettings();
    if (Events::jpressed(keycode::O))
        settings.graphics.frustumCulling = !settings.graphics.frustumCulling;
    if (Events::jpressed(keycode::F1)) hudVisible = !hudVisible;
    if (Events::jpressed(keycode::F3))
        controller->getPlayer()->debug = !controller->getPlayer()->debug;
    if (Events::jpressed(keycode::F5))
        controller->getLevel()->chunks->saveAndClear();
>> *)
Definition updateHotkeys (c : Collaborators) (f : Frontend c) : X (Screen (R c)) unit :=
  settings ← in_env (call (engine_getSettings c));
  o ← ask (Events_jpressed f key_O);
  when o (set_flags toggle_frustumCulling);;
  f1 ← ask (Events_jpressed f key_F1);
  when f1 (set_flags toggle_hudVisible);;
  f3 ← ask (Events_jpressed f key_F3);
  when f3 (in_env (call (controller_getPlayer c));;
           in_env (call (controller_getPlayer c));;
           set_flags toggle_debug);;
  f5 ← ask (Events_jpressed f key_F5);
  when f5 (in_env (call (chunks_saveAndClear f))).

(** [LevelScreen::update], from the fetch of the player on:
<<
    auto player = controller->getPlayer();
    auto camera = player->camera;
    bool paused = hud->isPause();
    audio::get_channel("regular")->setPaused(paused);
    audio::get_channel("ambient")->setPaused(paused);
    audio::set_listener(camera->position-camera->dir,
                        player->hitbox->velocity, camera->dir, camera->up);
    if (!hud->isPause()) {
        controller->getLevel()->getWorld()->updateTimers(delta);
        animator->update(delta);
    }
    controller->update(delta, !inputLocked, hud->isPause());
    hud->update(hudVisible);
>> *)
Definition update_world (c : Collaborators) (f : Frontend c) (delta : float)
    (inputLocked : bool) : X (Screen (R c)) unit :=
  player ← in_env (call (controller_getPlayer c));
  let camera := player_camera c player in
  paused ← ask (hud_isPause f);
  in_env (call (audio_setPaused f "regular" paused));;
  in_env (call (audio_setPaused f "ambient" paused));;
  in_env (call (audio_set_listener f camera player));;
  pause ← ask (hud_isPause f);
  when (negb pause)
    (in_env (call (world_updateTimers f delta));;
     in_env (call (animator_update f delta)));;
  pause ← ask (hud_isPause f);
  in_env (call (controller_update f delta (negb inputLocked) pause));;
  visible ← flag hudVisible;
  in_env (call (hud_update f visible)).

(** [LevelScreen::update]:
<<
    gui::GUI* gui = engine->getGUI();
    bool inputLocked = hud->isPause() || hud->isInventoryOpen() ||
                       gui->isFocusCaught();
    if (!gui->isFocusCaught()) { updateHotkeys(); }
    ...
>> *)
Definition update (c : Collaborators) (f : Frontend c) (delta : float)
    : X (Screen (R c)) unit :=
  pause ← ask (hud_isPause f);
  inventory ← ask (hud_isInventoryOpen f);
  focus ← ask (gui_isFocusCaught f);
  let inputLocked := pause || inventory || focus in
  focus ← ask (gui_isFocusCaught f);
  when (negb focus) (updateHotkeys c f);;
  update_world c f delta inputLocked.

(** What the destructor does after the export:
<<
    scripting::on_frontend_close();
    controller->onWorldQuit();
    engine->getPaths()->setWorldFolder(fs::path());
>> *)
Definition close_world (c : Collaborators) (f : Frontend c) : X (Screen (R c)) unit :=
  in_env (call (scripting_on_frontend_close f));;
  in_env (call (controller_onWorldQuit f));;
  paths ← in_env (call (engine_getPaths c));
  in_env (call (paths_setWorldFolder f paths)).

(** How a call of a [noexcept] function ends: it completes, or
    [std::terminate] ends the program because something was thrown out of
    its body. *)
Inductive fate (A : Type) : Type :=
  | Completed (a : A)
  | Terminated (e : thrown).

Arguments Completed {A} a.
Arguments Terminated {A} e.

Definition noexcept {S A} (body : X S A) : S → fate A * S :=
  λ s, match body s with
       | (Returned a, s') => (Completed a, s')
       | (Threw e, s') => (Terminated e, s')
       end.

(** [LevelScreen::~LevelScreen]: [saveWorldPreview();] and then the three
    calls above.  The destructor is declared without an exception
    specification, which makes it [noexcept]: nothing is thrown to its
    caller. *)
Definition destroy (c : Collaborators) (f : Frontend c)
    : Screen (R c) → fate unit * Screen (R c) :=
  noexcept (in_env (saveWorldPreview c);; close_world c f).

(** [LevelScreen::draw]:
<<
    auto camera = controller->getPlayer()->currentCamera;
    Viewport viewport(Window::width, Window::height);
    GfxContext ctx(nullptr, viewport, batch.get());
    worldRenderer->draw(ctx, camera.get(), hudVisible, postProcessing.get());
    if (hudVisible) { hud->draw(ctx); }
>> *)
Definition draw (c : Collaborators) (g : Renderer c) (delta : float)
    : X (Screen (R c)) unit :=
  player ← in_env (call (controller_getPlayer c));
  let camera := player_currentCamera g player in
  viewport ← in_env (call (window_viewport g));
  ctx ← in_env (call (new_GfxContext c viewport));
  visible ← flag hudVisible;
  in_env (call (worldRenderer_draw c ctx camera visible));;
  visible ← flag hudVisible;
  when visible (in_env (call (hud_draw g ctx))).

(** [LevelScreen::onEngineShutdown]: [controller->saveWorld();]. *)
Definition onEngineShutdown (c : Collaborators) (g : Renderer c)
    : X (Screen (R c)) unit :=
  in_env (call (controller_saveWorld g)).

End LevelScreen.

(** ** Watching what the collaborators throw

    To tell whether a function handles a failure, every collaborator is
    wrapped so that the program state also remembers what was thrown last;
    the wrapped call behaves as the call it wraps. *)
Definition watch {R A} (call : R → outcome A * R)
    : R * option thrown → outcome A * (R * option thrown) :=
  λ w, match call (fst w) with
       | (Returned a, r) => (Returned a, (r, snd w))
       | (Threw e, r) => (Threw e, (r, Some e))
       end.

Definition watched (c : Collaborators) : Collaborators := {|
  R := R c * option thrown;
  Paths := Paths c; Player := Player c; Camera := Camera c;
  Settings := Settings c; Viewport := Viewport c; GfxContext := GfxContext c;
  Image := Image c; File := File c;
  engine_getPaths := watch (engine_getPaths c);
  controller_getPlayer := watch (controller_getPlayer c);
  player_camera := player_camera c;
  engine_getSettings := watch (engine_getSettings c);
  worldPreviewSize_get := λ settings, watch (worldPreviewSize_get c settings);
  new_Viewport := λ size, watch (new_Viewport c size);
  new_GfxContext := λ viewport, watch (new_GfxContext c viewport);
  worldRenderer_draw := λ ctx camera hud, watch (worldRenderer_draw c ctx camera hud);
  postProcessing_toImage := watch (postProcessing_toImage c);
  image_flipY := λ image, watch (image_flipY c image);
  paths_resolve := λ paths name, watch (paths_resolve c paths name);
  imageio_write := λ file image, watch (imageio_write c file image)
|}.

Definition watched_frontend {c} (f : Frontend c) : Frontend (watched c) :=
  Build_Frontend (watched c)
    (λ key w, Events_jpressed f key (fst w))
    (λ w, hud_isPause f (fst w))
    (λ w, hud_isInventoryOpen f (fst w))
    (λ w, gui_isFocusCaught f (fst w))
    (watch (chunks_saveAndClear f))
    (λ channel paused, watch (audio_setPaused f channel paused))
    (λ camera player, watch (audio_set_listener f camera player))
    (λ delta, watch (world_updateTimers f delta))
    (λ delta, watch (animator_update f delta))
    (λ delta input pause, watch (controller_update f delta input pause))
    (λ visible, watch (hud_update f visible))
    (watch (scripting_on_frontend_close f))
    (watch (controller_onWorldQuit f))
    (λ paths, watch (paths_setWorldFolder f paths)).

Definition watched_renderer {c} (g : Renderer c) : Renderer (watched c) :=
  Build_Renderer (watched c)
    (λ player, player_currentCamera g player)
    (watch (window_viewport g))
    (λ ctx, watch (hud_draw g ctx))
    (watch (controller_saveWorld g)).

(** What was thrown last, and the state without that memory. *)
Definition raised {R} (e : Env (R * option thrown)) : option thrown := snd (rest e).

Definition unwatched {R} (e : Env (R * option thrown)) : Env R :=
  mkEnv (journal e) (fst (rest e)).

Definition unwatched_screen {R} (s : Screen (R * option thrown)) : Screen R :=
  mkScreen (flags s) (unwatched (env s)).

(** The way a function ends agrees with what its collaborators threw: it
    returns when nothing was thrown, and it throws just what was thrown. *)
Definition agrees {S A} (thrown_in : S → option thrown) (r : outcome A * S) : Prop :=
  match fst r with
  | Returned _ => thrown_in (snd r) = None
  | Threw e => thrown_in (snd r) = Some e
  end.

(** A function without failure handling: started where nothing has been
    thrown, it ends in agreement with what its collaborators threw. *)
Definition passes_failures {S A} (thrown_in : S → option thrown) (m : X S A) : Prop :=
  ∀ s, thrown_in s = None → agrees thrown_in (m s).

(** A watched run does what the plain run does. *)
Definition mirrors {S S' A} (erase : S → S') (m : X S A) (m' : X S' A) : Prop :=
  ∀ s, (let '(r, s1) := m s in (r, erase s1)) = m' (erase s).

(** What was thrown last, seen from the screen. *)
Definition screen_raised {R} (s : Screen (R * option thrown)) : option thrown :=
  raised (env s).

(** A computation that adds just the lines [l] to the journal. *)
Definition appends {R A} (l : list LogLine) (m : X (Env R) A) : Prop :=
  ∀ e, journal (snd (m e)) = journal e ++ l.

(** A function of the screen that handles no failure: watched, it passes on
    what its collaborators throw, and the watched run is its run. *)
Definition forwards_failures {R A} (watched_m : X (Screen (R * option thrown)) A)
    (m : X (Screen R) A) : Prop :=
  passes_failures screen_raised watched_m ∧
  mirrors unwatched_screen watched_m m.

(** A renderer in which every call returns. *)
Definition quiet_renderer : Renderer failing_disk := {|
  player_currentCamera := λ _ : Player failing_disk, (tt : Camera failing_disk);
  window_viewport := λ r, (Returned tt, r);
  hud_draw := λ _ r, (Returned tt, r);
  controller_saveWorld := λ r, (Returned tt, r)
|}.


(** A frontend over [failing_disk] in which every call returns, the keys O
    and F1 were just pressed and nothing has caught the focus. *)
Definition quiet_frontend : Frontend failing_disk := {|
  Events_jpressed := λ k _, match k with key_O | key_F1 => true | _ => false end;
  hud_isPause := λ _, false;
  hud_isInventoryOpen := λ _, false;
  gui_isFocusCaught := λ _, false;
  chunks_saveAndClear := λ r, (Returned tt, r);
  audio_setPaused := λ _ _ r, (Returned tt, r);
  audio_set_listener := λ _ _ r, (Returned tt, r);
  world_updateTimers := λ _ r, (Returned tt, r);
  animator_update := λ _ r, (Returned tt, r);
  controller_update := λ _ _ _ r, (Returned tt, r);
  hud_update := λ _ r, (Returned tt, r);
  scripting_on_frontend_close := λ r, (Returned tt, r);
  controller_onWorldQuit := λ r, (Returned tt, r);
  paths_setWorldFolder := λ _ r, (Returned tt, r)
|}.

(** The same with a text field holding the focus. *)
Definition focused_frontend : Frontend failing_disk := {|
  Events_jpressed := λ k _, match k with key_O | key_F1 => true | _ => false end;
  hud_isPause := λ _, false;
  hud_isInventoryOpen := λ _, false;
  gui_isFocusCaught := λ _, true;
  chunks_saveAndClear := λ r, (Returned tt, r);
  audio_setPaused := λ _ _ r, (Returned tt, r);
  audio_set_listener := λ _ _ r, (Returned tt, r);
  world_updateTimers := λ _ r, (Returned tt, r);
  animator_update := λ _ r, (Returned tt, r);
  controller_update := λ _ _ _ r, (Returned tt, r);
  hud_update := λ _ r, (Returned tt, r);
  scripting_on_frontend_close := λ r, (Returned tt, r);
  controller_onWorldQuit := λ r, (Returned tt, r);
  paths_setWorldFolder := λ _ r, (Returned tt, r)
|}.

Definition running_screen : Screen unit :=
  mkScreen (mkFlags true true false) (mkEnv [] tt).

(** The example plotter after the single sample -0.01: the magnitude -10
    under the cursor. *)
Definition negative_plotter : Plotter :=
  mkPlotter [0; -10; 0; 0; 0] (float_of_int 1000) 1 5 100 16
            (Vec2 (float_of_int 5) (float_of_int 100)) zero2.

(** A plotter built with a label interval of 0. *)
Definition unlabelled_plotter : Plotter := fresh 5 100 (float_of_int 1000) 0.

(** A computation of the screen that leaves the three switches alone,
    whether it returns or throws. *)
Definition keeps_flags {R A} (m : X (Screen R) A) : Prop :=
  ∀ s r s', m s = (r, s') → flags s' = flags s.

(** * Properties *)

Example run_example :
  plotter_result (run example_samples example_plotter)
  = Some ([30; 10; 50; 100; 90], 5).
Proof. vm_compute. reflexivity. Qed.

Example run_example_state :
  run example_samples example_plotter = Ok (tt, sampled_plotter).
Proof. vm_compute. reflexivity. Qed.

Example run_four_samples :
  run (take 4 example_samples) example_plotter = Ok (tt, four_samples_plotter).
Proof. vm_compute. reflexivity. Qed.

(** Beyond the range of [int] the conversion, and with it the tick, has no
    defined result. *)
Example act_beyond_int_range :
  act (float_of_int (2 ^ 31)) unit_plotter = Undefined FloatToIntRange.
Proof. vm_compute. reflexivity. Qed.

(** ** Integers *)

Lemma in_int_spec z : in_int z = true ↔ INT_MIN ≤ z ≤ INT_MAX.
Proof. unfold in_int. rewrite andb_true_iff, !Z.leb_le. tauto. Qed.

Lemma int_add_Ok a b : INT_MIN ≤ a + b ≤ INT_MAX → int_add a b = Ok (a + b).
Proof. intros H. unfold int_add. apply in_int_spec in H. now rewrite H. Qed.

Lemma int_add_inv a b c : int_add a b = Ok c → c = a + b ∧ INT_MIN ≤ c ≤ INT_MAX.
Proof.
  unfold int_add. destruct (in_int (a + b)) eqn:E; [|discriminate].
  intros [= <-]. split; [reflexivity|]. now apply in_int_spec.
Qed.

Lemma int_rem_Ok a w : 1 ≤ w → int_rem a w = Ok (Z.rem a w).
Proof.
  intros H. unfold int_rem.
  destruct (Z.eqb_spec w 0); [lia|].
  destruct (Z.eqb_spec w (-1)); [lia|].
  now rewrite andb_false_r.
Qed.

Lemma int_div_Ok a w : 1 ≤ w → int_div a w = Ok (Z.quot a w).
Proof.
  intros H. unfold int_div.
  destruct (Z.eqb_spec w 0); [lia|].
  destruct (Z.eqb_spec w (-1)); [lia|].
  now rewrite andb_false_r.
Qed.

Lemma int_rem_inv a w r : int_rem a w = Ok r → r = Z.rem a w ∧ w ≠ 0.
Proof.
  unfold int_rem. destruct (Z.eqb_spec w 0); [discriminate|].
  destruct (_ && _); [discriminate|]. intros [= <-]. auto.
Qed.

Lemma rem_1 w : 1 ≤ w → Z.rem 1 w = if w =? 1 then 0 else 1.
Proof.
  intros H. destruct (Z.eqb_spec w 1) as [->|]; [reflexivity|].
  apply Z.rem_small. lia.
Qed.

Lemma rem_slot i w : 0 ≤ i → 1 ≤ w → 0 ≤ Z.rem i w < w.
Proof. intros. apply Z.rem_bound_pos; lia. Qed.

(** ** [act] *)

Lemma act_unfold d p :
  act d p =
  match int_rem 1 (dmwidth p) with
  | Undefined f => Undefined f
  | Ok r =>
    match int_add (index p) r with
    | Undefined f => Undefined f
    | Ok i' =>
      match int_of_float (fmul d (multiplier p)) with
      | Undefined f => Undefined f
      | Ok value =>
        match int_rem i' (dmwidth p) with
        | Undefined f => Undefined f
        | Ok j => store_point j (Z.min value (dmheight p)) (set_index i' p)
        end
      end
    end
  end.
Proof.
  unfold act, mbind, M_bind, gets, modify, lift. cbn.
  destruct (int_rem 1 (dmwidth p)); [|reflexivity].
  destruct (int_add (index p) a); [|reflexivity]. cbn.
  destruct (int_of_float _); [|reflexivity]. simpl.
  destruct (int_rem a0 (dmwidth p)); reflexivity.
Qed.

Lemma act_defined d p value :
  well_formed p → index p + Z.rem 1 (dmwidth p) ≤ INT_MAX →
  int_of_float (fmul d (multiplier p)) = Ok value →
  act d p = Ok (tt, written p (index p + Z.rem 1 (dmwidth p)) value).
Proof.
  intros (Hw & Hlen & Hi & Hmax) Hroom Hv.
  rewrite act_unfold, int_rem_Ok by lia.
  assert (0 ≤ Z.rem 1 (dmwidth p) ≤ 1) by (rewrite rem_1 by lia; destruct (_ =? _); lia).
  rewrite int_add_Ok by (unfold INT_MIN, INT_MAX in *; lia).
  rewrite Hv, int_rem_Ok by lia.
  pose proof (rem_slot (index p + Z.rem 1 (dmwidth p)) (dmwidth p)) as Hs.
  unfold store_point. cbn.
  destruct (Z.leb_spec 0 (Z.rem (index p + Z.rem 1 (dmwidth p)) (dmwidth p))); [|lia].
  destruct (Z.ltb_spec (Z.rem (index p + Z.rem 1 (dmwidth p)) (dmwidth p))
                       (Z.of_nat (length (points p)))); [|lia].
  reflexivity.
Qed.

Lemma act_inv d p p' :
  act d p = Ok (tt, p') →
  ∃ r value,
    int_rem 1 (dmwidth p) = Ok r ∧
    INT_MIN ≤ index p + r ≤ INT_MAX ∧
    int_of_float (fmul d (multiplier p)) = Ok value ∧
    0 ≤ Z.rem (index p + r) (dmwidth p) < Z.of_nat (length (points p)) ∧
    p' = written p (index p + r) value.
Proof.
  rewrite act_unfold.
  destruct (int_rem 1 (dmwidth p)) as [r|] eqn:Hr; [|discriminate].
  destruct (int_add (index p) r) as [i'|] eqn:Hi; [|discriminate].
  destruct (int_of_float _) as [value|] eqn:Hv; [|discriminate].
  destruct (int_rem i' (dmwidth p)) as [j|] eqn:Hj; [|discriminate].
  apply int_add_inv in Hi as [-> Hrange].
  apply int_rem_inv in Hj as [-> _].
  unfold store_point. cbn.
  destruct (Z.leb_spec 0 (Z.rem (index p + r) (dmwidth p))); [|discriminate].
  destruct (Z.ltb_spec (Z.rem (index p + r) (dmwidth p)) (Z.of_nat (length (points p))));
    [|discriminate].
  intros [= <-]. exists r, value. repeat split; auto; lia.
Qed.

Lemma written_index p i v : index (written p i v) = i.
Proof. reflexivity. Qed.

Lemma written_points p i v :
  points (written p i v) = <[slot p i := Z.min v (dmheight p)]> (points p).
Proof. reflexivity. Qed.

(** ** Truncation *)

Lemma Qtrunc_lower_bound (h : Z) (q : Q) : (inject_Z h < q)%Q → h ≤ Qtrunc q.
Proof.
  destruct q as [n d]. unfold Qlt, Qtrunc. cbn. intros H.
  destruct (Z_le_gt_dec 0 n) as [Hn|Hn].
  - rewrite Z.quot_div_nonneg by lia. apply Z.div_le_lower_bound; lia.
  - replace n with (- - n) by lia. rewrite Z.quot_opp_l by lia.
    rewrite Z.quot_div_nonneg by lia.
    enough (- n / Z.pos d ≤ - h) by lia.
    apply Z.div_le_upper_bound; lia.
Qed.

Lemma Qtrunc_towards_zero (q : Q) :
  ((0 <= q)%Q → (inject_Z (Qtrunc q) <= q)%Q ∧ (q < inject_Z (Qtrunc q + 1))%Q) ∧
  ((q <= 0)%Q → (inject_Z (Qtrunc q - 1) < q)%Q ∧ (q <= inject_Z (Qtrunc q))%Q).
Proof.
  destruct q as [n d]. unfold Qle, Qlt, Qtrunc. cbn.
  pose proof (Z.quot_rem' n (Z.pos d)) as E.
  split; intros H.
  - pose proof (Z.rem_bound_pos n (Z.pos d)). nia.
  - pose proof (Z.rem_bound_pos_neg n (Z.pos d)).
    destruct (Z.eq_dec n 0) as [->|]; [rewrite Z.quot_0_l by lia; lia|]. nia.
Qed.

(** ** Sequences of sampling ticks *)

Lemma written_geometry p i v : same_geometry p (written p i v).
Proof. repeat split. cbn. apply length_insert. Qed.

Lemma same_geometry_trans p1 p2 p3 :
  same_geometry p1 p2 → same_geometry p2 p3 → same_geometry p1 p3.
Proof. unfold same_geometry. intuition congruence. Qed.

Lemma run_app ds1 ds2 p :
  run (ds1 ++ ds2) p =
  match run ds1 p with
  | Ok (_, p1) => run ds2 p1
  | Undefined f => Undefined f
  end.
Proof.
  revert p. induction ds1 as [|d ds1 IH]; intros p; [reflexivity|].
  cbn. unfold mbind, M_bind.
  destruct (act d p) as [[[] p1]|]; [apply IH|reflexivity].
Qed.

Lemma run_single d p : run [d] p = act d p.
Proof.
  cbn. unfold mbind, M_bind. destruct (act d p) as [[[] p1]|]; reflexivity.
Qed.

Lemma rem_1_bounds w : 1 ≤ w → 0 ≤ Z.rem 1 w ≤ 1.
Proof. intros. rewrite rem_1 by lia. destruct (_ =? _); lia. Qed.

Lemma rem_shift_ne a k w :
  0 ≤ a → 1 ≤ k < w → Z.rem a w ≠ Z.rem (a + k) w.
Proof.
  intros Ha Hk. rewrite !Z.rem_mod_nonneg by lia. intros E.
  assert (Hd : (a + k - a) mod w = 0).
  { rewrite Zminus_mod, <- E, Z.sub_diag. apply Z.mod_0_l. lia. }
  replace (a + k - a) with k in Hd by lia.
  rewrite Z.mod_small in Hd by lia. lia.
Qed.

Lemma run_contents ds :
  ∀ p, well_formed p → Forall (castable p) ds →
       cursor_after p (length ds) ≤ INT_MAX →
  ∃ p', run ds p = Ok (tt, p') ∧ index p' = cursor_after p (length ds) ∧
        same_geometry p p' ∧
        ∀ (t : nat) d, ds !! t = Some d →
          Z.of_nat (length ds) - Z.of_nat t ≤ dmwidth p →
          ∃ m, magnitude p d = Ok m ∧
               points p' !! slot p (cursor_after p (S t)) = Some m.
Proof.
  induction ds as [|d ds IH] using rev_ind; intros p Hwf Hcast Hroom.
  - exists p. repeat split; unfold cursor_after; cbn; try lia.
    intros t d Ht. rewrite lookup_nil in Ht. discriminate.
  - destruct Hwf as (Hw & Hlen & Hi & Hmax).
    pose proof (rem_1_bounds (dmwidth p) Hw) as Hr.
    apply Forall_app in Hcast as [Hcast Hd].
    apply Forall_inv in Hd as [v Hv].
    rewrite length_app in Hroom. cbn [length] in Hroom.
    unfold cursor_after in Hroom.
    destruct (IH p) as (p1 & Hrun & Hidx & Hgeo & Hold); auto.
    { repeat split; auto. }
    { unfold cursor_after. nia. }
    pose proof Hgeo as (Hm1 & Hw1 & Hh1 & _ & _ & _ & Hl1).
    unfold cursor_after in Hidx.
    assert (Hwf1 : well_formed p1).
    { unfold well_formed. rewrite Hw1, Hl1, Hidx. repeat split; auto; nia. }
    rewrite run_app, Hrun, run_single.
    rewrite (act_defined d p1 v) by (rewrite ?Hw1, ?Hm1, ?Hidx; auto; nia).
    eexists. split; [reflexivity|].
    rewrite written_index, written_points, Hw1, Hidx, length_app. cbn [length].
    split; [unfold cursor_after; nia|].
    split; [eapply same_geometry_trans; [exact Hgeo|apply written_geometry]|].
    intros t d0 Ht Hrecent.
    assert (Hslot : slot p1 = slot p) by (unfold slot; now rewrite Hw1).
    rewrite Hslot, Hh1.
    replace (index p + Z.of_nat (length ds) * Z.rem 1 (dmwidth p) + Z.rem 1 (dmwidth p))
      with (cursor_after p (S (length ds))) by (unfold cursor_after; nia).
    destruct (decide (t = length ds)) as [->|Hne].
    + rewrite lookup_app_r, Nat.sub_diag in Ht by lia. injection Ht as <-.
      exists (Z.min v (dmheight p)). split.
      * unfold magnitude. now rewrite Hv.
      * apply list_lookup_insert_eq. rewrite Hl1. unfold slot.
        pose proof (rem_slot (cursor_after p (S (length ds))) (dmwidth p)).
        unfold cursor_after in *. nia.
    + assert (Hlt : (t < length ds)%nat).
      { apply lookup_lt_Some in Ht. rewrite length_app in Ht. cbn in Ht. lia. }
      rewrite lookup_app_l in Ht by lia.
      destruct (Hold t d0 Ht) as (m & Hmag & Hm); [lia|].
      exists m. split; [exact Hmag|].
      rewrite list_lookup_insert_ne; [exact Hm|].
      assert (Hw2 : 2 ≤ dmwidth p) by lia.
      unfold slot, cursor_after. rewrite (rem_1 (dmwidth p)) by lia.
      destruct (Z.eqb_spec (dmwidth p) 1); [lia|].
      intros E. apply Z2Nat.inj in E.
      * replace (index p + Z.of_nat (S (length ds)) * 1)
          with (index p + Z.of_nat (S t) * 1 + (Z.of_nat (length ds) - Z.of_nat t)) in E by lia.
        symmetry in E. revert E. apply rem_shift_ne; lia.
      * apply rem_slot; lia.
      * apply rem_slot; lia.
Qed.

Lemma act_stores d p v :
  well_formed p → cursor_after p 1 ≤ INT_MAX →
  int_of_float (fmul d (multiplier p)) = Ok v →
  ∃ p', act d p = Ok (tt, p') ∧ index p' = cursor_after p 1 ∧
        same_geometry p p' ∧
        points p' = <[slot p (index p') := Z.min v (dmheight p)]> (points p) ∧
        points p' !! slot p (index p') = Some (Z.min v (dmheight p)).
Proof.
  intros Hwf Hroom Hv. unfold cursor_after in *.
  replace (Z.of_nat 1 * Z.rem 1 (dmwidth p)) with (Z.rem 1 (dmwidth p)) in * by lia.
  rewrite (act_defined d p v) by auto.
  eexists. split; [reflexivity|]. rewrite written_index, written_points.
  repeat split; [apply length_insert|].
  apply list_lookup_insert_eq.
  destruct Hwf as (Hw & Hlen & Hi & Hmax).
  pose proof (rem_1_bounds (dmwidth p) Hw).
  pose proof (rem_slot (index p + Z.rem 1 (dmwidth p)) (dmwidth p)).
  unfold slot. lia.
Qed.

Lemma int_of_float_value x q :
  float_value x = Some q → in_int (Qtrunc q) = true → int_of_float x = Ok (Qtrunc q).
Proof. intros Hq Hr. unfold int_of_float. now rewrite Hq, Hr. Qed.

(** C1: after N >= W sampling ticks the buffer holds exactly the clamped
    magnitudes of the last W samples: the sample of tick t sits in the slot
    that the cursor of that tick selects, and every slot holds one of
    them. *)
Theorem buffer_holds_last_samples ds p :
  well_formed p → Forall (castable p) ds →
  cursor_after p (length ds) ≤ INT_MAX →
  dmwidth p ≤ Z.of_nat (length ds) →
  ∃ p', run ds p = Ok (tt, p') ∧
    Z.of_nat (length (points p')) = dmwidth p ∧
    (∀ (t : nat) d, ds !! t = Some d →
       Z.of_nat (length ds) - Z.of_nat t ≤ dmwidth p →
       ∃ m, magnitude p d = Ok m ∧
            points p' !! slot p (cursor_after p (S t)) = Some m) ∧
    (∀ (j : nat) m, points p' !! j = Some m →
       ∃ (t : nat) d, ds !! t = Some d ∧
         Z.of_nat (length ds) - Z.of_nat t ≤ dmwidth p ∧
         magnitude p d = Ok m ∧ j = slot p (cursor_after p (S t))).
Proof.
  intros Hwf Hcast Hroom Hfull.
  destruct (run_contents ds p Hwf Hcast Hroom) as (p' & Hrun & Hidx & Hgeo & Hrecent).
  destruct Hwf as (Hw & Hlen & Hi & Hmax).
  pose proof Hgeo as (_ & _ & _ & _ & _ & _ & Hl).
  exists p'. split; [exact Hrun|]. split; [now rewrite Hl|].
  split; [exact Hrecent|].
  intros j m Hj.
  assert (Hjw : Z.of_nat j < dmwidth p).
  { apply lookup_lt_Some in Hj. rewrite Hl in Hj. lia. }
  set (t0 := (length ds - Z.to_nat (dmwidth p))%nat).
  set (c0 := cursor_after p (S t0)).
  set (k := (Z.of_nat j - c0) mod dmwidth p).
  assert (Hk : 0 ≤ k < dmwidth p) by (apply Z.mod_pos_bound; lia).
  pose proof (rem_1_bounds (dmwidth p) Hw) as Hr.
  assert (Hc0 : 0 ≤ c0) by (unfold c0, cursor_after; nia).
  assert (Hslot : slot p (cursor_after p (S (t0 + Z.to_nat k))) = j).
  { unfold slot, cursor_after. rewrite rem_1 by lia.
    destruct (Z.eqb_spec (dmwidth p) 1) as [E|E].
    - rewrite E, Z.rem_1_r. lia.
    - replace (index p + Z.of_nat (S (t0 + Z.to_nat k)) * 1) with (c0 + k).
      + rewrite Z.rem_mod_nonneg by lia. unfold k.
        rewrite Zplus_mod_idemp_r.
        replace (c0 + (Z.of_nat j - c0)) with (Z.of_nat j) by lia.
        rewrite Z.mod_small by lia. lia.
      + unfold c0, cursor_after. rewrite rem_1 by lia.
        destruct (Z.eqb_spec (dmwidth p) 1); lia. }
  assert (Ht : (t0 + Z.to_nat k < length ds)%nat) by (unfold t0; lia).
  destruct (lookup_lt_is_Some_2 ds _ Ht) as [d Hd].
  assert (Hin : Z.of_nat (length ds) - Z.of_nat (t0 + Z.to_nat k) ≤ dmwidth p)
    by (unfold t0; lia).
  destruct (Hrecent _ d Hd Hin) as (m' & Hmag & Hm').
  rewrite Hslot, Hj in Hm'. injection Hm' as <-.
  exists (t0 + Z.to_nat k)%nat, d. auto.
Qed.

Lemma example_samples_castable : Forall (castable example_plotter) example_samples.
Proof. repeat constructor; eexists; vm_compute; reflexivity. Defined.

Lemma example_plotter_well_formed : well_formed example_plotter.
Proof. vm_compute. intuition discriminate. Defined.

Lemma buffer_holds_last_samples_witness :
  ∃ p', run example_samples example_plotter = Ok (tt, p') ∧
    Z.of_nat (length (points p')) = 5 ∧
    (∀ (t : nat) d, example_samples !! t = Some d →
       5 - Z.of_nat t ≤ 5 →
       ∃ m, magnitude example_plotter d = Ok m ∧
            points p' !! slot example_plotter (cursor_after example_plotter (S t)) = Some m) ∧
    (∀ (j : nat) m, points p' !! j = Some m →
       ∃ (t : nat) d, example_samples !! t = Some d ∧
         5 - Z.of_nat t ≤ 5 ∧
         magnitude example_plotter d = Ok m ∧
         j = slot example_plotter (cursor_after example_plotter (S t))).
Proof.
  apply (buffer_holds_last_samples example_samples example_plotter).
  - exact example_plotter_well_formed.
  - exact example_samples_castable.
  - vm_compute. discriminate.
  - vm_compute. discriminate.
Defined.

(** C3, as the code has it: a sampling tick stores the truncated product
    clamped from above only.  Every stored magnitude stays at most H, and
    within [0, H] as long as the truncated products are not negative; a
    product truncated to a negative value is stored as it is. *)
Theorem act_clamps_from_above d p v :
  well_formed p → cursor_after p 1 ≤ INT_MAX →
  int_of_float (fmul d (multiplier p)) = Ok v →
  ∃ p', act d p = Ok (tt, p') ∧
    points p' !! slot p (index p') = Some (Z.min v (dmheight p)) ∧
    (Forall (λ m, m ≤ dmheight p) (points p) →
     Forall (λ m, m ≤ dmheight p') (points p')) ∧
    (0 ≤ v → 0 ≤ dmheight p →
     Forall (λ m, 0 ≤ m ≤ dmheight p) (points p) →
     Forall (λ m, 0 ≤ m ≤ dmheight p') (points p')) ∧
    (v < 0 → 0 ≤ dmheight p → points p' !! slot p (index p') = Some v).
Proof.
  intros Hwf Hroom Hv.
  destruct (act_stores d p v Hwf Hroom Hv) as (p' & Hact & Hidx & Hgeo & Hpts & Hnew).
  pose proof Hgeo as (_ & _ & Hh & _).
  exists p'. split; [exact Hact|]. split; [exact Hnew|].
  rewrite Hh. repeat split.
  - intros Hall. rewrite Hpts. apply Forall_insert; [exact Hall|lia].
  - intros Hv0 Hh0 Hall. rewrite Hpts. apply Forall_insert; [exact Hall|lia].
  - intros Hneg Hh0. rewrite Hnew. f_equal. lia.
Qed.

Lemma act_clamps_from_above_witness :
  ∃ p', act (ratio (-1) 100) example_plotter = Ok (tt, p') ∧
    points p' !! slot example_plotter (index p') = Some (Z.min (-10) 100) ∧
    (Forall (λ m, m ≤ 100) (points example_plotter) →
     Forall (λ m, m ≤ dmheight p') (points p')) ∧
    (0 ≤ -10 → 0 ≤ 100 →
     Forall (λ m, 0 ≤ m ≤ 100) (points example_plotter) →
     Forall (λ m, 0 ≤ m ≤ dmheight p') (points p')) ∧
    (-10 < 0 → 0 ≤ 100 →
     points p' !! slot example_plotter (index p') = Some (-10)).
Proof.
  apply (act_clamps_from_above (ratio (-1) 100) example_plotter (-10)).
  - exact example_plotter_well_formed.
  - vm_compute. discriminate.
  - vm_compute. reflexivity.
Defined.

(** C3, as stated, fails: the sample -0.01 at scale 1000 leaves the
    magnitude -10 in the buffer, outside [0, 100]. *)
Lemma act_stores_negative_magnitude :
  ∃ p', act (ratio (-1) 100) example_plotter = Ok (tt, p') ∧
        points p' = [0; -10; 0; 0; 0] ∧
        ¬ Forall (λ m, 0 ≤ m ≤ dmheight p') (points p').
Proof.
  eexists. split; [vm_compute; reflexivity|]. split; [reflexivity|].
  cbn. intros H. apply Forall_cons in H as [_ H]. apply Forall_cons in H as [H _]. lia.
Qed.

(** C4 at the wrap point: with five slots and the cursor on the last one, a
    sampling tick leaves the cursor at 5, where (4 + 1) mod 5 is 0; the
    sample lands in slot 0 all the same, through the subscript. *)
Theorem act_cursor_passes_width :
  ∃ p', act (ratio 3 100) four_samples_plotter = Ok (tt, p') ∧
        index four_samples_plotter = 4 ∧ dmwidth four_samples_plotter = 5 ∧
        index p' = 5 ∧
        (index four_samples_plotter + 1) mod dmwidth four_samples_plotter = 0 ∧
        points p' = [30; 10; 50; 100; 90].
Proof. eexists. split; [vm_compute; reflexivity|]. repeat split. Qed.

(** C5, as the code has it: the stored magnitude is the product truncated
    towards zero, then clamped from above. *)
Theorem act_stores_truncated_product d p q :
  well_formed p → cursor_after p 1 ≤ INT_MAX →
  float_value (fmul d (multiplier p)) = Some q →
  in_int (Qtrunc q) = true →
  ∃ p', act d p = Ok (tt, p') ∧
    points p' !! slot p (index p') = Some (Z.min (Qtrunc q) (dmheight p)) ∧
    ((0 <= q)%Q → (inject_Z (Qtrunc q) <= q)%Q ∧ (q < inject_Z (Qtrunc q + 1))%Q) ∧
    ((q <= 0)%Q → (inject_Z (Qtrunc q - 1) < q)%Q ∧ (q <= inject_Z (Qtrunc q))%Q).
Proof.
  intros Hwf Hroom Hq Hr.
  destruct (act_stores d p (Qtrunc q) Hwf Hroom (int_of_float_value _ _ Hq Hr))
    as (p' & Hact & _ & _ & _ & Hnew).
  exists p'. split; [exact Hact|]. split; [exact Hnew|].
  apply Qtrunc_towards_zero.
Qed.

Lemma act_stores_truncated_product_witness :
  ∃ p', act sample_2_75 unit_plotter = Ok (tt, p') ∧
    points p' !! slot unit_plotter (index p')
    = Some (Z.min (Qtrunc value_2_75) 100) ∧
    ((0 <= value_2_75)%Q →
     (inject_Z (Qtrunc value_2_75) <= value_2_75)%Q ∧
     (value_2_75 < inject_Z (Qtrunc value_2_75 + 1))%Q) ∧
    ((value_2_75 <= 0)%Q →
     (inject_Z (Qtrunc value_2_75 - 1) < value_2_75)%Q ∧
     (value_2_75 <= inject_Z (Qtrunc value_2_75))%Q).
Proof.
  apply (act_stores_truncated_product sample_2_75 unit_plotter value_2_75).
  - vm_compute. intuition discriminate.
  - vm_compute. discriminate.
  - vm_compute. reflexivity.
  - vm_compute. reflexivity.
Defined.

(** C5, as stated, fails: the product 2.75 is stored as 2, where rounding to
    the nearest integer gives 3. *)
Lemma act_truncates_where_spec_rounds :
  ∃ p', act sample_2_75 unit_plotter = Ok (tt, p') ∧
        float_value (fmul sample_2_75 (multiplier unit_plotter)) = Some value_2_75 ∧
        points p' !! slot unit_plotter (index p') = Some 2 ∧
        spec_magnitude unit_plotter sample_2_75 = Some 3 ∧
        points p' !! slot unit_plotter (index p')
        ≠ spec_magnitude unit_plotter sample_2_75.
Proof.
  eexists. split; [vm_compute; reflexivity|]. repeat split. vm_compute. discriminate.
Qed.

(** C6, as the code has it: a finite product above H whose truncation is an
    [int] is stored as exactly H.  The clamp comes after the conversion to
    [int], so it cannot help a product that the conversion does not take. *)
Theorem act_saturates_at_height d p q :
  well_formed p → cursor_after p 1 ≤ INT_MAX →
  float_value (fmul d (multiplier p)) = Some q →
  in_int (Qtrunc q) = true →
  (inject_Z (dmheight p) < q)%Q →
  ∃ p', act d p = Ok (tt, p') ∧
        points p' !! slot p (index p') = Some (dmheight p).
Proof.
  intros Hwf Hroom Hq Hr Habove.
  destruct (act_stores d p (Qtrunc q) Hwf Hroom (int_of_float_value _ _ Hq Hr))
    as (p' & Hact & _ & _ & _ & Hnew).
  exists p'. split; [exact Hact|].
  rewrite Hnew. f_equal. apply Qtrunc_lower_bound in Habove. lia.
Qed.

Lemma act_saturates_at_height_witness :
  ∃ p', act (ratio 2 10) example_plotter = Ok (tt, p') ∧
        points p' !! slot example_plotter (index p') = Some 100.
Proof.
  apply (act_saturates_at_height (ratio 2 10) example_plotter (13107200 # 65536)).
  - exact example_plotter_well_formed.
  - vm_compute. discriminate.
  - vm_compute. reflexivity.
  - vm_compute. reflexivity.
  - vm_compute. reflexivity.
Defined.

(** C6, as stated, fails: the sample 3000000 at scale 1000 has the product
    3e9, above H = 100, and the tick stores nothing: the conversion of 3e9
    to [int] is undefined. *)
Lemma act_saturation_fails_beyond_int :
  float_value (fmul huge_sample (multiplier example_plotter))
  = Some (inject_Z 3000000000) ∧
  (inject_Z (dmheight example_plotter) < inject_Z 3000000000)%Q ∧
  act huge_sample example_plotter = Undefined FloatToIntRange ∧
  ¬ ∃ p', act huge_sample example_plotter = Ok (tt, p') ∧
          points p' !! slot example_plotter (index p')
          = Some (dmheight example_plotter).
Proof.
  split; [vm_compute; reflexivity|]. split; [vm_compute; reflexivity|].
  assert (E : act huge_sample example_plotter = Undefined FloatToIntRange)
    by (vm_compute; reflexivity).
  split; [exact E|]. intros (p' & Hact & _). rewrite E in Hact. discriminate.
Qed.

(** C10: with more than one slot, a sampling tick adds exactly 1 to the
    stored cursor and only the subscript is reduced modulo the width; over
    N ticks the cursor grows by N. *)
Theorem act_cursor_never_reduced :
  (∀ d p p', 1 < dmwidth p → act d p = Ok (tt, p') →
     index p' = index p + 1 ∧
     ∃ m, points p' = <[Z.to_nat (Z.rem (index p + 1) (dmwidth p)) := m]> (points p)) ∧
  (∀ ds p, 1 < dmwidth p → well_formed p → Forall (castable p) ds →
     index p + Z.of_nat (length ds) ≤ INT_MAX →
     ∃ p', run ds p = Ok (tt, p') ∧ index p' = index p + Z.of_nat (length ds)).
Proof.
  split.
  - intros d p p' Hw Hact.
    apply act_inv in Hact as (r & v & Hr & _ & _ & _ & ->).
    apply int_rem_inv in Hr as [-> _]. rewrite rem_1 by lia.
    destruct (Z.eqb_spec (dmwidth p) 1); [lia|].
    rewrite written_index, written_points. split; [reflexivity|].
    eexists. reflexivity.
  - intros ds p Hw Hwf Hcast Hroom.
    destruct (run_contents ds p Hwf Hcast) as (p' & Hrun & Hidx & _).
    + unfold cursor_after. rewrite rem_1 by lia.
      destruct (Z.eqb_spec (dmwidth p) 1); lia.
    + exists p'. split; [exact Hrun|]. rewrite Hidx. unfold cursor_after.
      rewrite rem_1 by lia. destruct (Z.eqb_spec (dmwidth p) 1); lia.
Qed.

Lemma act_cursor_never_reduced_witness :
  ∃ p', run example_samples example_plotter = Ok (tt, p') ∧
        index p' = index example_plotter + Z.of_nat (length example_samples).
Proof.
  apply (proj2 act_cursor_never_reduced example_samples example_plotter).
  - vm_compute. reflexivity.
  - exact example_plotter_well_formed.
  - exact example_samples_castable.
  - vm_compute. discriminate.
Defined.

(** ** Loops *)

Lemma for_loop_S {S} n (cond : Z → M S bool) step body i s :
  for_loop (Datatypes.S n) cond step body i s =
  match cond i s with
  | Ok (true, s1) =>
      match body i s1 with
      | Ok (_, s2) =>
          match step i s2 with
          | Ok (i', s3) => for_loop n cond step body i' s3
          | Undefined f => Undefined f
          end
      | Undefined f => Undefined f
      end
  | Ok (false, s1) => Ok (tt, s1)
  | Undefined f => Undefined f
  end.
Proof.
  cbn [for_loop]. unfold mbind, M_bind.
  destruct (cond i s) as [[[] s1]|]; reflexivity.
Qed.

Lemma for_loop_strides (p : Plotter) (cond : Z → M World bool)
    (step : Z → M World Z) (body : Z → M World unit)
    (g : Z → Batch2D → Batch2D) lo s hi :
  0 < s →
  (∀ y b, cond y (p, b) = Ok (y <? hi, (p, b))) →
  (∀ y b, lo ≤ y < hi → step y (p, b) = Ok (y + s, (p, b))) →
  (∀ y b, lo ≤ y < hi → body y (p, b) = Ok (tt, (p, g y b))) →
  ∀ n y b, lo ≤ y → hi - y ≤ Z.of_nat n * s →
    for_loop (S n) cond step body y (p, b)
    = Ok (tt, (p, foldl (λ b y, g y b) b (strides n y s hi))).
Proof.
  intros Hs Hcond Hstep Hbody.
  induction n as [|n IH]; intros y b Hlo Hfuel; rewrite for_loop_S, Hcond.
  - destruct (Z.ltb_spec y hi); [lia|reflexivity].
  - cbn [strides]. destruct (Z.ltb_spec y hi); [|reflexivity].
    rewrite Hbody, Hstep by lia. apply IH; lia.
Qed.

Lemma strides_unit n y hi : hi - y ≤ Z.of_nat n → strides n y 1 hi = seqZ y (hi - y).
Proof.
  revert y. induction n as [|n IH]; intros y Hn; cbn [strides].
  - now rewrite seqZ_nil by lia.
  - destruct (Z.ltb_spec y hi).
    + rewrite seqZ_cons by lia. f_equal. rewrite IH by lia. f_equal; lia.
    + now rewrite seqZ_nil by lia.
Qed.

Lemma foldl_emit (f : Z → DrawCall) ys b :
  foldl (λ b y, emit (f y) b) b ys = emits (f <$> ys) b.
Proof.
  revert b. induction ys as [|y ys IH]; intros [t w c cs].
  - unfold emits. cbn. now rewrite app_nil_r.
  - cbn [foldl]. rewrite IH. unfold emits, emit. cbn. now rewrite <- app_assoc.
Qed.

Lemma default_last_cons {A} (c x : A) l : default c (last (x :: l)) = default x (last l).
Proof. rewrite last_cons. destruct (last l); reflexivity. Qed.

Lemma foldl_colored (col : Z → vec4) (f : Z → DrawCall) ys b :
  foldl (λ b y, mkBatch (texture b) (lineWidth b) (col y) (calls b ++ [f y])) b ys
  = mkBatch (texture b) (lineWidth b) (default (color b) (last (col <$> ys)))
            (calls b ++ (f <$> ys)).
Proof.
  revert b. induction ys as [|y ys IH]; intros [t w c cs].
  - cbn. now rewrite app_nil_r.
  - cbn [foldl]. rewrite IH. cbn [texture lineWidth color calls].
    rewrite fmap_cons, default_last_cons, <- app_assoc. reflexivity.
Qed.

(** ** The blocks of [draw] *)

Lemma load_point_slot p i :
  well_formed p → 0 ≤ i →
  load_point (Z.rem i (dmwidth p)) p = Ok (point_at p i, p).
Proof.
  intros (Hw & Hlen & _) Hi. unfold load_point, point_at, slot.
  pose proof (rem_slot i (dmwidth p) Hi Hw) as Hj.
  destruct (Z.leb_spec 0 (Z.rem i (dmwidth p))); [|lia].
  destruct (lookup_lt_is_Some_2 (points p) (Z.to_nat (Z.rem i (dmwidth p)))) as [v ->];
    [lia|reflexivity].
Qed.

Lemma draw_bar_frame p b i :
  well_formed p → 0 ≤ i →
  draw_bar (position p) i (p, b)
  = Ok (tt, (p, emit (column_bar p (i - index p) (point_at p i)) b)).
Proof.
  intros Hwf Hi. pose proof Hwf as (Hw & _).
  unfold draw_bar, mbind, M_bind, self, batch, gets, lift. cbn.
  rewrite int_rem_Ok by lia. cbn. rewrite load_point_slot by auto. cbn.
  unfold column_bar, batch_line, modify.
  replace (index p + (i - index p)) with i by lia. reflexivity.
Qed.

Lemma draw_bars_frame p b :
  well_formed p → index p + dmwidth p ≤ INT_MAX →
  draw_bars (position p) (p, b) = Ok (tt, (p, emits (bars p) b)).
Proof.
  intros Hwf Hroom. pose proof Hwf as (Hw & Hlen & Hi & Hmax).
  unfold draw_bars, mbind, M_bind, self, gets, lift. cbn -[for_loop].
  rewrite int_add_Ok by (unfold INT_MIN, INT_MAX in *; lia). cbn -[for_loop].
  rewrite (for_loop_strides p _ _ _
             (λ i, emit (column_bar p (i - index p) (point_at p i)))
             (index p + 1) 1 (index p + dmwidth p)); try lia.
  - rewrite foldl_emit, strides_unit by lia. unfold bars.
    replace (index p + dmwidth p - (index p + 1)) with (dmwidth p - 1) by lia.
    rewrite <- (fmap_add_seqZ (index p) 1), <- list_fmap_compose.
    do 4 f_equal. apply list_fmap_ext. intros _ c _. cbn.
    now replace (index p + c - index p) with c by lia.
  - intros y b'. cbn. now rewrite int_add_Ok by (unfold INT_MIN, INT_MAX in *; lia).
  - intros y b' Hy. cbn. now rewrite int_add_Ok by (unfold INT_MIN, INT_MAX in *; lia).
  - intros y b' Hy. apply draw_bar_frame; [auto|lia].
Qed.

Lemma draw_outline_frame p b :
  draw_outline (position p) (p, b)
  = Ok (tt, (p, mkBatch (texture b) (lineWidth b) lowlight (calls b ++ [outline p]))).
Proof. reflexivity. Qed.

Lemma draw_ticks_frame p b :
  dmheight p + 16 ≤ INT_MAX + 1 →
  draw_ticks (position p) (p, b)
  = Ok (tt, (p, emits (tick p <$> rows (dmheight p) 16) b)).
Proof.
  intros Hroom.
  unfold draw_ticks, mbind, M_bind, self, gets, lift. cbn -[for_loop].
  rewrite (for_loop_strides p _ _ _ (λ y, emit (tick p y)) 0 16 (dmheight p)); try lia.
  - now rewrite foldl_emit.
  - reflexivity.
  - intros y b' Hy. cbn. now rewrite int_add_Ok by (unfold INT_MIN, INT_MAX in *; lia).
  - reflexivity.
Qed.

Lemma draw_label_frame p b y :
  1 ≤ labelsInterval p →
  draw_label (position p) (current_point p) y (p, b)
  = Ok (tt, (p, mkBatch (texture b) (lineWidth b) (label_color p y)
                        (calls b ++ [label p y]))).
Proof.
  intros Hli.
  unfold draw_label, mbind, M_bind, self, batch, gets, lift. cbn -[int_div].
  rewrite (int_div_Ok _ 16), (int_div_Ok _ (labelsInterval p)) by lia. cbn.
  unfold label, label_color, row_matches.
  destruct (_ =? _); reflexivity.
Qed.

Lemma draw_labels_frame p b :
  1 ≤ labelsInterval p → dmheight p + labelsInterval p ≤ INT_MAX + 1 →
  draw_labels (position p) (current_point p) (p, b)
  = Ok (tt, (p, mkBatch (texture b) (lineWidth b)
                  (default (color b)
                     (last (label_color p <$> rows (dmheight p) (labelsInterval p))))
                  (calls b ++ labels p))).
Proof.
  intros Hli Hroom.
  unfold draw_labels, mbind, M_bind, self, gets, lift. cbn -[for_loop].
  rewrite (for_loop_strides p _ _ _
             (λ y b, mkBatch (texture b) (lineWidth b) (label_color p y)
                             (calls b ++ [label p y]))
             0 (labelsInterval p) (dmheight p)); try lia.
  - now rewrite foldl_colored.
  - reflexivity.
  - intros y b' Hy. cbn. now rewrite int_add_Ok by (unfold INT_MIN, INT_MAX in *; lia).
  - intros y b' Hy. now apply draw_label_frame.
  - nia.
Qed.

(** A render tick on a drawable plotter returns, leaves the plotter as it
    was and adds the calls of [frame] to the surface. *)
Lemma draw_frame p b :
  drawable p → draw (p, b) = Ok (tt, (p, painted p b)).
Proof.
  intros (Hwf & Hroom & Hli & Hlabels & Hticks).
  pose proof Hwf as (Hw & Hlen & Hi & Hmax).
  unfold draw. unfold mbind at 1 2 3, M_bind at 1 2 3.
  unfold self at 1, calcPos, gets, batch at 1 2, batch_texture, batch_lineWidth, modify.
  cbn [fst snd].
  unfold mbind at 1, M_bind at 1. rewrite draw_bars_frame by auto.
  unfold mbind at 1, M_bind at 1. rewrite draw_outline_frame.
  unfold mbind at 1, M_bind at 1. rewrite draw_ticks_frame by auto.
  unfold mbind, M_bind, self, lift. cbn [fst snd].
  rewrite int_rem_Ok by lia. rewrite load_point_slot by auto. cbn [fst snd].
  fold (current_point p). rewrite draw_labels_frame by auto.
  unfold painted, emits, frame. cbn [texture lineWidth color calls].
  rewrite <- !app_assoc. reflexivity.
Qed.

(** ** [draw] only reads the plotter *)

Create HintDb keeps.

Lemma keeps_ret {A} (a : A) : keeps_plotter (mret a).
Proof. intros w a' w' [= _ <-]. reflexivity. Qed.

Lemma keeps_bind {A B} (m : M World A) (k : A → M World B) :
  keeps_plotter m → (∀ a, keeps_plotter (k a)) → keeps_plotter (m ≫= k).
Proof.
  intros Hm Hk w b w'. unfold mbind, M_bind.
  destruct (m w) as [[a w1]|] eqn:E; [|discriminate].
  intros Hb. rewrite (Hk a _ _ _ Hb). exact (Hm _ _ _ E).
Qed.

Lemma keeps_lift {A} (r : result A) : keeps_plotter (lift r).
Proof. intros w a w'. unfold lift. destruct r; [intros [= _ <-]; reflexivity|discriminate]. Qed.

Lemma keeps_batch {A} (m : M Batch2D A) : keeps_plotter (batch m).
Proof.
  intros w a w'. unfold batch. destruct (m (snd w)) as [[a' b']|]; [|discriminate].
  intros [= _ <-]. reflexivity.
Qed.

Lemma keeps_gets {A} (f : Plotter → A) : keeps_plotter (self (gets f)).
Proof. intros w a w' [= _ <-]. reflexivity. Qed.

Lemma keeps_load j : keeps_plotter (self (load_point j)).
Proof.
  intros w a w'. unfold self, load_point.
  destruct (0 <=? j); [|discriminate].
  destruct (points (fst w) !! Z.to_nat j); [|discriminate].
  intros [= _ <-]. reflexivity.
Qed.

Lemma keeps_if {A} (c : bool) (m1 m2 : M World A) :
  keeps_plotter m1 → keeps_plotter m2 → keeps_plotter (if c then m1 else m2).
Proof. destruct c; auto. Qed.

Lemma keeps_for_loop cond step body :
  (∀ i, keeps_plotter (cond i)) → (∀ i, keeps_plotter (step i)) →
  (∀ i, keeps_plotter (body i)) →
  ∀ n i, keeps_plotter (for_loop n cond step body i).
Proof.
  intros Hc Hs Hb. induction n as [|n IH]; intros i.
  - apply keeps_lift.
  - cbn [for_loop]. apply keeps_bind; [apply Hc|]. intros [].
    + apply keeps_bind; [apply Hb|]. intros _.
      apply keeps_bind; [apply Hs|]. intros i'. apply IH.
    + apply keeps_ret.
Qed.

#[local] Hint Resolve keeps_ret keeps_lift keeps_batch keeps_gets keeps_load : keeps.
#[local] Hint Extern 2 (keeps_plotter (_ ≫= _)) => apply keeps_bind; [|intros ?] : keeps.
#[local] Hint Extern 2 (keeps_plotter (if _ then _ else _)) => apply keeps_if : keeps.
#[local] Hint Extern 2 (keeps_plotter (for_loop _ _ _ _ _)) =>
  apply keeps_for_loop; intros ? : keeps.

Lemma draw_keeps_plotter : keeps_plotter draw.
Proof.
  unfold draw, draw_bars, draw_bar, draw_outline, draw_ticks, draw_tick,
    draw_labels, draw_label, calcPos.
  auto 40 with keeps.
Qed.

Lemma redraw_frame p n b :
  drawable p →
  redraw n (p, b) = Ok (tt, (p, Nat.iter n (painted p) b)) ∧
  calls (Nat.iter n (painted p) b) = calls b ++ concat (replicate n (frame p)).
Proof.
  intros Hp. revert b. induction n as [|n IH]; intros b.
  - split; [reflexivity|]. cbn. now rewrite app_nil_r.
  - destruct (IH (painted p b)) as [Hrun Hcalls].
    cbn [redraw]. unfold mbind, M_bind. rewrite draw_frame by exact Hp.
    rewrite Hrun. rewrite Nat.iter_succ_r. split; [reflexivity|].
    rewrite Hcalls. cbn. now rewrite <- app_assoc.
Qed.

(** C8: a render tick never changes the plotter; on a drawable plotter any
    number of render ticks in a row return, leave the plotter as it was and
    put the same calls on the surface each time, whatever the surface held
    before. *)
Theorem draw_never_mutates_plotter :
  (∀ w a w', draw w = Ok (a, w') → fst w' = fst w) ∧
  (∀ p, drawable p → ∀ n b,
     ∃ b', redraw n (p, b) = Ok (tt, (p, b')) ∧
           calls b' = calls b ++ concat (replicate n (frame p))).
Proof.
  split; [exact draw_keeps_plotter|].
  intros p Hp n b. exists (Nat.iter n (painted p) b). now apply redraw_frame.
Qed.

Lemma sampled_plotter_drawable : drawable sampled_plotter.
Proof. vm_compute. intuition discriminate. Defined.

Lemma draw_never_mutates_plotter_witness :
  ∃ b', redraw 2 (sampled_plotter, blank) = Ok (tt, (sampled_plotter, b')) ∧
        calls b' = calls blank ++ concat (replicate 2 (frame sampled_plotter)).
Proof.
  apply (proj2 draw_never_mutates_plotter sampled_plotter sampled_plotter_drawable 2%nat blank).
Defined.

(** ** The highlighted label *)

Lemma lowlight_not_highlight : lowlight ≠ highlight.
Proof. vm_compute. discriminate. Qed.

Lemma highlighted_label p y : highlighted (label p y) = row_matches p y.
Proof.
  unfold label, label_color. cbn. destruct (row_matches p y).
  - now apply bool_decide_eq_true.
  - apply bool_decide_eq_false. exact lowlight_not_highlight.
Qed.

Lemma filter_highlighted_labels p ys :
  List.filter highlighted (label p <$> ys) = label p <$> List.filter (row_matches p) ys.
Proof.
  induction ys as [|y ys IH]; [reflexivity|].
  rewrite fmap_cons. cbn [List.filter]. rewrite highlighted_label.
  destruct (row_matches p y); [rewrite fmap_cons|]; now rewrite IH.
Qed.

Lemma filter_highlighted_bars p : List.filter highlighted (bars p) = [].
Proof. unfold bars. induction (seqZ 1 (dmwidth p - 1)); [reflexivity|exact IHl]. Qed.

Lemma filter_highlighted_ticks p ys : List.filter highlighted (tick p <$> ys) = [].
Proof. induction ys; [reflexivity|exact IHys]. Qed.

Lemma filter_highlighted_frame p :
  List.filter highlighted (frame p)
  = label p <$> List.filter (row_matches p) (rows (dmheight p) (labelsInterval p)).
Proof.
  unfold frame. rewrite List.filter_app, filter_highlighted_bars. cbn.
  rewrite List.filter_app, filter_highlighted_ticks. cbn.
  apply filter_highlighted_labels.
Qed.

(** Of the values [k*s, (k+1)*s, ...] below [hi] only [q*s] has quotient
    [q] by [s]. *)
Lemma filter_strides_quot q s hi n :
  0 < s → ∀ k, 0 ≤ k → hi - k * s ≤ Z.of_nat n * s →
  List.filter (λ y, q =? Z.quot y s) (strides n (k * s) s hi)
  = if (k <=? q) && (q * s <? hi) then [q * s] else [].
Proof.
  intros Hs. induction n as [|n IH]; intros k Hk Hfuel; cbn [strides].
  - cbn. destruct (Z.leb_spec k q), (Z.ltb_spec (q * s) hi); try reflexivity. nia.
  - destruct (Z.ltb_spec (k * s) hi) as [Hlt|Hge].
    + cbn [List.filter]. rewrite Z.quot_mul by lia.
      replace (k * s + s) with ((k + 1) * s) by lia.
      rewrite IH by lia.
      destruct (Z.eqb_spec q k) as [->|Hne].
      * destruct (Z.leb_spec (k + 1) k); [lia|]. cbn.
        destruct (Z.leb_spec k k); [|lia].
        destruct (Z.ltb_spec (k * s) hi); [reflexivity|lia].
      * destruct (Z.leb_spec (k + 1) q), (Z.leb_spec k q); try lia; reflexivity.
    + cbn. destruct (Z.leb_spec k q), (Z.ltb_spec (q * s) hi); try reflexivity. nia.
Qed.

Lemma filter_rows_matching p :
  1 ≤ labelsInterval p →
  List.filter (row_matches p) (rows (dmheight p) (labelsInterval p))
  = let q := Z.quot (current_point p) 16 in
    if (0 <=? q) && (q * labelsInterval p <? dmheight p)
    then [q * labelsInterval p] else [].
Proof.
  intros Hli. unfold rows, row_matches.
  replace 0 with (0 * labelsInterval p) at 1 by lia.
  apply filter_strides_quot; nia.
Qed.

(** C7, as the code has it: a render tick highlights at most one label row.
    With a label interval of 16 it is the row y = 16 * (current_point / 16)
    when that row is on the chart, and no row otherwise; for a current
    magnitude within [0, H) it is exactly one row, the one whose band
    [y, y + 16) holds the magnitude. *)
Theorem draw_highlights_at_most_one_row p :
  drawable p →
  ∀ b, ∃ b', draw (p, b) = Ok (tt, (p, b')) ∧ calls b' = calls b ++ frame p ∧
    (length (List.filter highlighted (frame p)) ≤ 1)%nat ∧
    (labelsInterval p = 16 →
     let y := 16 * Z.quot (current_point p) 16 in
     List.filter highlighted (frame p)
     = (if (0 <=? y) && (y <? dmheight p) then [label p y] else []) ∧
     (0 ≤ current_point p < dmheight p →
      List.filter highlighted (frame p) = [label p y] ∧
      y ≤ current_point p < y + 16)).
Proof.
  intros Hp b. pose proof Hp as (_ & _ & Hli & _).
  exists (painted p b). split; [now apply draw_frame|]. split; [reflexivity|].
  rewrite filter_highlighted_frame, filter_rows_matching by exact Hli. cbn zeta.
  split.
  - destruct (_ && _); cbn; lia.
  - intros E. rewrite E.
    replace (Z.quot (current_point p) 16 * 16) with (16 * Z.quot (current_point p) 16) by lia.
    assert (Hq : (0 <=? Z.quot (current_point p) 16) = (0 <=? 16 * Z.quot (current_point p) 16)).
    { destruct (Z.leb_spec 0 (Z.quot (current_point p) 16)),
        (Z.leb_spec 0 (16 * Z.quot (current_point p) 16)); lia. }
    rewrite Hq. split.
    + destruct (_ && _); reflexivity.
    + intros Hcp.
      pose proof (Z.quot_rem' (current_point p) 16) as Hd.
      pose proof (Z.rem_bound_pos (current_point p) 16) as Hr.
      destruct (Z.leb_spec 0 (16 * Z.quot (current_point p) 16)); [|lia].
      destruct (Z.ltb_spec (16 * Z.quot (current_point p) 16) (dmheight p)); [|lia].
      split; [reflexivity|lia].
Qed.

Lemma draw_highlights_at_most_one_row_witness :
  ∃ b', draw (sampled_plotter, blank) = Ok (tt, (sampled_plotter, b')) ∧
    calls b' = calls blank ++ frame sampled_plotter ∧
    (length (List.filter highlighted (frame sampled_plotter)) ≤ 1)%nat ∧
    (labelsInterval sampled_plotter = 16 →
     let y := 16 * Z.quot (current_point sampled_plotter) 16 in
     List.filter highlighted (frame sampled_plotter)
     = (if (0 <=? y) && (y <? dmheight sampled_plotter)
        then [label sampled_plotter y] else []) ∧
     (0 ≤ current_point sampled_plotter < dmheight sampled_plotter →
      List.filter highlighted (frame sampled_plotter) = [label sampled_plotter y] ∧
      y ≤ current_point sampled_plotter < y + 16)).
Proof.
  apply (draw_highlights_at_most_one_row sampled_plotter sampled_plotter_drawable blank).
Defined.

(** C7, as stated, fails: on a chart of height 32 a sample clamped to 32
    selects row 2, and the chart has rows 0 and 1 only; no label is drawn in
    the highlighted style. *)
Lemma draw_highlights_no_row_at_full_height :
  ∃ p' b', act (ratio 2 10) short_plotter = Ok (tt, p') ∧
           current_point p' = 32 ∧
           draw (p', blank) = Ok (tt, (p', b')) ∧
           List.filter highlighted (calls b') = [] ∧
           length (List.filter highlighted (calls b')) ≠ 1%nat.
Proof.
  do 2 eexists. split; [vm_compute; reflexivity|].
  split; [reflexivity|]. split; [vm_compute; reflexivity|].
  split; [reflexivity|]. vm_compute. discriminate.
Qed.

(** ** The rightmost column *)

Lemma last_bars p :
  2 ≤ dmwidth p →
  last (bars p)
  = Some (column_bar p (dmwidth p - 1) (point_at p (index p + (dmwidth p - 1)))).
Proof.
  intros Hw. unfold bars. rewrite fmap_last, last_lookup, length_seqZ.
  rewrite lookup_seqZ_lt by lia. cbn.
  now replace (1 + Z.of_nat (Init.Nat.pred (Z.to_nat (dmwidth p - 1)))) with (dmwidth p - 1) by lia.
Qed.

Lemma rem_add_width a w : 0 ≤ a → 1 ≤ w → Z.rem (a + w) w = Z.rem a w.
Proof.
  intros. rewrite !Z.rem_mod_nonneg by lia.
  replace (a + w) with (a + 1 * w) by lia. apply Z_mod_plus_full.
Qed.

(** After a sampling tick the rightmost bar shows what the slot of the old
    cursor holds, the sample before the one just stored; the slot just
    written belongs to no column. *)
Lemma rightmost_bar_lags d p p' :
  2 ≤ dmwidth p → well_formed p → act d p = Ok (tt, p') →
  last (bars p') = Some (column_bar p' (dmwidth p' - 1) (point_at p (index p))) ∧
  ∀ c, 1 ≤ c < dmwidth p' → slot p' (index p' + c) ≠ slot p' (index p').
Proof.
  intros Hw (_ & Hlen & Hi & Hmax) Hact.
  apply act_inv in Hact as (r & v & Hr & _ & _ & _ & ->).
  apply int_rem_inv in Hr as [-> _]. rewrite rem_1 by lia.
  destruct (Z.eqb_spec (dmwidth p) 1); [lia|].
  split.
  - rewrite last_bars by exact Hw. do 2 f_equal.
    unfold point_at, slot. cbn [written set_points set_index points index dmwidth].
    replace (index p + 1 + (dmwidth p - 1)) with (index p + dmwidth p) by lia.
    rewrite rem_add_width by lia.
    rewrite list_lookup_insert_ne; [reflexivity|].
    unfold slot. cbn. intros E. apply Z2Nat.inj in E; try (apply rem_slot; lia).
    symmetry in E. revert E. apply rem_shift_ne; lia.
  - intros c Hc. unfold slot. cbn in *. intros E.
    apply Z2Nat.inj in E; try (apply rem_slot; lia).
    symmetry in E. revert E. apply rem_shift_ne; lia.
Qed.

(** C2 on the spec's example: after the fifth sample (magnitude 30) a render
    tick draws its rightmost bar, column 4, with the magnitude 90 of the
    fourth sample; the bar that would show 30 there is not the one drawn. *)
Theorem draw_rightmost_bar_shows_previous_sample :
  ∃ b', act (ratio 3 100) four_samples_plotter = Ok (tt, sampled_plotter) ∧
        current_point sampled_plotter = 30 ∧
        draw (sampled_plotter, blank) = Ok (tt, (sampled_plotter, b')) ∧
        take 4 (calls b') = bars sampled_plotter ∧
        last (bars sampled_plotter) = Some (column_bar sampled_plotter 4 90) ∧
        column_bar sampled_plotter 4 90 ≠ column_bar sampled_plotter 4 30 ∧
        Forall (λ c, highlighted c = false ∧ ∀ col, c ≠ column_bar sampled_plotter col 30)
               (bars sampled_plotter).
Proof.
  eexists. split; [vm_compute; reflexivity|]. split; [reflexivity|].
  split; [vm_compute; reflexivity|]. split; [reflexivity|].
  split; [reflexivity|]. split; [vm_compute; discriminate|].
  repeat constructor; intros col E; apply (f_equal bar_top) in E;
    lazy in E; discriminate.
Qed.

(** ** The preview export *)

Lemma try_catch_std_caught {S A} (body : X S A) handler s what s' :
  body s = (Threw (std_exception what), s') →
  try_catch_std body handler s = handler what s'.
Proof. intros E. unfold try_catch_std. now rewrite E. Qed.

Lemma try_catch_std_no_escape {S A} (body : X S A) handler s :
  (∀ what s1, ∃ a s2, handler what s1 = (Returned a, s2)) →
  ∀ what s', try_catch_std body handler s ≠ (Threw (std_exception what), s').
Proof.
  intros Hh what s'. unfold try_catch_std.
  destruct (body s) as [[a|[what1|]] s1]; try discriminate.
  destruct (Hh what1 s1) as (a & s2 & ->). discriminate.
Qed.

(** *** Functions without failure handling

    Sequencing, branching and calls pass on what a collaborator throws. *)

Section Passing.
Context {S : Type} (thrown_in : S → option thrown).

Lemma passes_ret {A} (a : A) : passes_failures thrown_in (mret a).
Proof. intros s H. exact H. Qed.

Lemma passes_bind {A B} (m : X S A) (k : A → X S B) :
  passes_failures thrown_in m →
  (∀ a, passes_failures thrown_in (k a)) →
  passes_failures thrown_in (m ≫= k).
Proof.
  intros Hm Hk s H. specialize (Hm s H).
  unfold mbind, X_bind, agrees in *.
  destruct (m s) as [[a|e] s']; cbn in *.
  - apply Hk, Hm.
  - exact Hm.
Qed.

Lemma passes_when b (m : X S unit) :
  passes_failures thrown_in m → passes_failures thrown_in (LevelScreen.when b m).
Proof. intros Hm. destruct b; [exact Hm | apply passes_ret]. Qed.
End Passing.

Lemma passes_call {R A} (g : R → outcome A * R) :
  passes_failures raised (call (watch g)).
Proof.
  intros [j [r w]] H. unfold raised in H. cbn in H. subst w.
  unfold call, watch, agrees, raised. cbn.
  destruct (g r) as [[a|x] r']; reflexivity.
Qed.

Lemma passes_logger_info {R} text :
  passes_failures raised (logger_info (R := R * option thrown) text).
Proof. intros e H. exact H. Qed.

Lemma passes_in_env {R A} (m : X (Env (R * option thrown)) A) :
  passes_failures raised m →
  passes_failures screen_raised (LevelScreen.in_env m).
Proof.
  intros Hm s H. specialize (Hm (env s) H).
  unfold LevelScreen.in_env, agrees, screen_raised in *.
  destruct (m (env s)) as [[a|x] e']; exact Hm.
Qed.

Lemma passes_ask {R A} (q : R * option thrown → A) :
  passes_failures screen_raised (LevelScreen.ask q).
Proof. intros s H. exact H. Qed.

Lemma passes_flag {R} (f : Flags → bool) :
  passes_failures (screen_raised (R := R)) (LevelScreen.flag f).
Proof. intros s H. exact H. Qed.

Lemma passes_set_flags {R} (f : Flags → Flags) :
  passes_failures (screen_raised (R := R)) (LevelScreen.set_flags f).
Proof. intros s H. exact H. Qed.

Ltac passes :=
  repeat first
    [ progress cbv zeta
    | apply passes_bind; [|intros]
    | apply passes_ret
    | apply passes_when
    | apply passes_in_env
    | apply passes_call
    | apply passes_logger_info
    | apply passes_ask
    | apply passes_flag
    | apply passes_set_flags ].

Lemma export_preview_passes c :
  passes_failures raised (export_preview (watched c)).
Proof. unfold export_preview. passes. Qed.

Lemma updateHotkeys_passes c (f : Frontend c) :
  passes_failures screen_raised
    (LevelScreen.updateHotkeys (watched c) (watched_frontend f)).
Proof. unfold LevelScreen.updateHotkeys. passes. Qed.

Lemma update_world_passes c (f : Frontend c) delta inputLocked :
  passes_failures screen_raised
    (LevelScreen.update_world (watched c) (watched_frontend f) delta inputLocked).
Proof. unfold LevelScreen.update_world. passes. Qed.

Lemma update_passes c (f : Frontend c) delta :
  passes_failures screen_raised
    (LevelScreen.update (watched c) (watched_frontend f) delta).
Proof.
  unfold LevelScreen.update.
  repeat (apply passes_bind; [apply passes_ask | intros]).
  apply passes_bind; [apply passes_when, updateHotkeys_passes | intros _].
  apply update_world_passes.
Qed.

Lemma close_world_passes c (f : Frontend c) :
  passes_failures screen_raised
    (LevelScreen.close_world (watched c) (watched_frontend f)).
Proof. unfold LevelScreen.close_world. passes. Qed.

Lemma draw_passes c (g : Renderer c) delta :
  passes_failures screen_raised
    (LevelScreen.draw (watched c) (watched_renderer g) delta).
Proof. unfold LevelScreen.draw. passes. Qed.

Lemma onEngineShutdown_passes c (g : Renderer c) :
  passes_failures screen_raised
    (LevelScreen.onEngineShutdown (watched c) (watched_renderer g)).
Proof. unfold LevelScreen.onEngineShutdown. passes. Qed.

(** *** What the export writes to the journal *)

Lemma appends_ret {R A} (a : A) : appends (R := R) [] (mret a).
Proof. intros e. cbn. now rewrite app_nil_r. Qed.

Lemma appends_bind {R A B} l (m : X (Env R) A) (k : A → X (Env R) B) :
  appends l m → (∀ a, appends [] (k a)) → appends l (m ≫= k).
Proof.
  intros Hm Hk e. specialize (Hm e). unfold mbind, X_bind.
  destruct (m e) as [[a|x] e']; cbn in *.
  - now rewrite Hk, Hm, app_nil_r.
  - exact Hm.
Qed.

Lemma appends_call {R A} (g : R → outcome A * R) : appends [] (call g).
Proof.
  intros e. unfold call. destruct (g (rest e)) as [r s]. cbn.
  now rewrite app_nil_r.
Qed.

Lemma appends_logger_info {R} text :
  appends (R := R) [Info text] (logger_info text).
Proof. intros e. reflexivity. Qed.

Lemma export_preview_appends c :
  appends [Info "saving world preview"] (export_preview c).
Proof.
  unfold export_preview.
  apply appends_bind; [apply appends_logger_info | intros _].
  repeat first [ progress cbv zeta
               | apply appends_bind; [apply appends_call | intros]
               | apply appends_call ].
Qed.

(** *** The watched run is the run *)

Section Mirroring.
Context {S S' : Type} (erase : S → S').

Lemma mirrors_ret {A} (a : A) : mirrors erase (mret a) (mret a).
Proof. intros s. reflexivity. Qed.

Lemma mirrors_bind {A B} (m : X S A) (m' : X S' A)
    (k : A → X S B) (k' : A → X S' B) :
  mirrors erase m m' → (∀ a, mirrors erase (k a) (k' a)) →
  mirrors erase (m ≫= k) (m' ≫= k').
Proof.
  intros Hm Hk s. specialize (Hm s). unfold mbind, X_bind.
  destruct (m s) as [[a|x] s1]; rewrite <- Hm.
  - apply Hk.
  - reflexivity.
Qed.

Lemma mirrors_when b (m : X S unit) (m' : X S' unit) :
  mirrors erase m m' →
  mirrors erase (LevelScreen.when b m) (LevelScreen.when b m').
Proof. intros Hm. destruct b; [exact Hm | apply mirrors_ret]. Qed.

Lemma mirrors_try_catch_std {A} (body : X S A) (body' : X S' A) handler handler' :
  mirrors erase body body' →
  (∀ what, mirrors erase (handler what) (handler' what)) →
  mirrors erase (try_catch_std body handler) (try_catch_std body' handler').
Proof.
  intros Hb Hh s. specialize (Hb s). unfold try_catch_std.
  destruct (body s) as [[a|[what|]] s1]; rewrite <- Hb.
  - reflexivity.
  - apply Hh.
  - reflexivity.
Qed.
End Mirroring.

Lemma mirrors_call {R A} (g : R → outcome A * R) :
  mirrors unwatched (call (watch g)) (call g).
Proof.
  intros [j [r w]]. unfold call, watch, unwatched. cbn.
  destruct (g r) as [[a|x] r']; reflexivity.
Qed.

Lemma mirrors_logger_info {R} text :
  mirrors (unwatched (R := R)) (logger_info text) (logger_info text).
Proof. intros e. reflexivity. Qed.

Lemma mirrors_logger_error {R} text :
  mirrors (unwatched (R := R)) (logger_error text) (logger_error text).
Proof. intros e. reflexivity. Qed.

Lemma mirrors_in_env {R A} (m : X (Env (R * option thrown)) A) (m' : X (Env R) A) :
  mirrors unwatched m m' →
  mirrors unwatched_screen (LevelScreen.in_env m) (LevelScreen.in_env m').
Proof.
  intros Hm s. specialize (Hm (env s)).
  unfold LevelScreen.in_env, unwatched_screen. cbn.
  destruct (m (env s)) as [r e1]. rewrite <- Hm. reflexivity.
Qed.

Lemma mirrors_ask {R A} (q : R → A) :
  mirrors unwatched_screen (LevelScreen.ask (λ w : R * option thrown, q (fst w)))
          (LevelScreen.ask q).
Proof. intros s. reflexivity. Qed.

Lemma mirrors_flag {R} (f : Flags → bool) :
  mirrors (unwatched_screen (R := R)) (LevelScreen.flag f) (LevelScreen.flag f).
Proof. intros s. reflexivity. Qed.

Lemma mirrors_set_flags {R} (f : Flags → Flags) :
  mirrors (unwatched_screen (R := R)) (LevelScreen.set_flags f)
          (LevelScreen.set_flags f).
Proof. intros s. reflexivity. Qed.

Ltac mirrors :=
  repeat first
    [ progress cbv zeta
    | apply mirrors_bind; [|intros]
    | apply mirrors_ret
    | apply mirrors_when
    | apply mirrors_try_catch_std; [|intros]
    | apply mirrors_in_env
    | apply mirrors_call
    | apply mirrors_logger_info
    | apply mirrors_logger_error
    | apply mirrors_ask
    | apply mirrors_flag
    | apply mirrors_set_flags ].

Lemma saveWorldPreview_mirrors c :
  mirrors unwatched (saveWorldPreview (watched c)) (saveWorldPreview c).
Proof. unfold saveWorldPreview, export_preview. mirrors. Qed.

Lemma updateHotkeys_mirrors c (f : Frontend c) :
  mirrors unwatched_screen
    (LevelScreen.updateHotkeys (watched c) (watched_frontend f))
    (LevelScreen.updateHotkeys c f).
Proof. unfold LevelScreen.updateHotkeys. mirrors. Qed.

Lemma update_world_mirrors c (f : Frontend c) delta inputLocked :
  mirrors unwatched_screen
    (LevelScreen.update_world (watched c) (watched_frontend f) delta inputLocked)
    (LevelScreen.update_world c f delta inputLocked).
Proof. unfold LevelScreen.update_world. mirrors. Qed.

Lemma update_mirrors c (f : Frontend c) delta :
  mirrors unwatched_screen
    (LevelScreen.update (watched c) (watched_frontend f) delta)
    (LevelScreen.update c f delta).
Proof.
  unfold LevelScreen.update.
  repeat (apply mirrors_bind; [apply mirrors_ask | intros]).
  apply mirrors_bind; [apply mirrors_when, updateHotkeys_mirrors | intros _].
  apply update_world_mirrors.
Qed.

Lemma close_world_mirrors c (f : Frontend c) :
  mirrors unwatched_screen
    (LevelScreen.close_world (watched c) (watched_frontend f))
    (LevelScreen.close_world c f).
Proof. unfold LevelScreen.close_world. mirrors. Qed.

Lemma draw_mirrors c (g : Renderer c) delta :
  mirrors unwatched_screen
    (LevelScreen.draw (watched c) (watched_renderer g) delta)
    (LevelScreen.draw c g delta).
Proof. unfold LevelScreen.draw. mirrors. Qed.

Lemma onEngineShutdown_mirrors c (g : Renderer c) :
  mirrors unwatched_screen
    (LevelScreen.onEngineShutdown (watched c) (watched_renderer g))
    (LevelScreen.onEngineShutdown c g).
Proof. unfold LevelScreen.onEngineShutdown. mirrors. Qed.

(** C9: a [std::exception] thrown at any step of the export is caught in
    [saveWorldPreview], its message is logged as an error, and the call
    returns; no [std::exception] leaves [saveWorldPreview].  Step by step,
    with every collaborator watched and nothing thrown so far: when no step
    of the export throws, the call returns having logged its one line; when
    a step throws a [std::exception], the call returns having logged the
    message of that exception as an error after it; anything else that a
    step throws leaves the call; and the watched run is the run.  This is
    the only failure handling: [updateHotkeys], [update], the calls of the
    destructor after the export, [draw] and [onEngineShutdown] return when
    no collaborator throws and otherwise throw just what the collaborator
    threw. *)
Theorem saveWorldPreview_catches_std_exception (c : Collaborators) :
  (∀ e what e', export_preview c e = (Threw (std_exception what), e') →
     saveWorldPreview c e
     = (Returned tt, mkEnv (journal e' ++ [Error what]) (rest e'))) ∧
  (∀ e what e', saveWorldPreview c e ≠ (Threw (std_exception what), e')) ∧
  (∀ e, raised e = None →
     let '(r, e') := saveWorldPreview (watched c) e in
     match raised e' with
     | None =>
         r = Returned tt ∧
         journal e' = journal e ++ [Info "saving world preview"]
     | Some (std_exception what) =>
         r = Returned tt ∧
         journal e' = journal e ++ [Info "saving world preview"; Error what]
     | Some foreign_throwable =>
         r = Threw foreign_throwable ∧
         journal e' = journal e ++ [Info "saving world preview"]
     end) ∧
  mirrors unwatched (saveWorldPreview (watched c)) (saveWorldPreview c) ∧
  (∀ f : Frontend c,
     forwards_failures
       (LevelScreen.updateHotkeys (watched c) (watched_frontend f))
       (LevelScreen.updateHotkeys c f)) ∧
  (∀ (f : Frontend c) delta,
     forwards_failures
       (LevelScreen.update (watched c) (watched_frontend f) delta)
       (LevelScreen.update c f delta)) ∧
  (∀ f : Frontend c,
     forwards_failures
       (LevelScreen.close_world (watched c) (watched_frontend f))
       (LevelScreen.close_world c f)) ∧
  (∀ (g : Renderer c) delta,
     forwards_failures
       (LevelScreen.draw (watched c) (watched_renderer g) delta)
       (LevelScreen.draw c g delta)) ∧
  (∀ g : Renderer c,
     forwards_failures
       (LevelScreen.onEngineShutdown (watched c) (watched_renderer g))
       (LevelScreen.onEngineShutdown c g)).
Proof.
  split; [|split; [|split; [|split]]].
  - intros e what e' E. unfold saveWorldPreview.
    now rewrite (try_catch_std_caught _ _ _ _ _ E).
  - intros e. unfold saveWorldPreview. apply try_catch_std_no_escape.
    intros what s1. now eexists _, _.
  - intros e He.
    pose proof (export_preview_passes c e He) as Hp.
    pose proof (export_preview_appends (watched c) e) as Hj.
    unfold saveWorldPreview, try_catch_std, agrees in *.
    destruct (export_preview (watched c) e) as [[[]|[what|]] [j1 [r1 w1]]];
      unfold logger_error, raised in *; cbn in Hp, Hj |- *; subst w1 j1.
    + split; reflexivity.
    + split; [reflexivity|]. now rewrite <- app_assoc.
    + split; reflexivity.
  - apply saveWorldPreview_mirrors.
  - repeat split; intros.
    + apply updateHotkeys_passes.
    + apply updateHotkeys_mirrors.
    + apply update_passes.
    + apply update_mirrors.
    + apply close_world_passes.
    + apply close_world_mirrors.
    + apply draw_passes.
    + apply draw_mirrors.
    + apply onEngineShutdown_passes.
    + apply onEngineShutdown_mirrors.
Qed.

Lemma saveWorldPreview_catches_std_exception_witness :
  saveWorldPreview failing_disk (mkEnv [] tt)
  = (Returned tt, mkEnv [Info "saving world preview"; Error "cannot open file"] tt) ∧
  (let '(r, e') := saveWorldPreview (watched failing_disk) (mkEnv [] (tt, None)) in
   raised e' = Some (std_exception "cannot open file") ∧
   r = Returned tt ∧
   journal e' = [Info "saving world preview"; Error "cannot open file"]).
Proof.
  split.
  - apply (proj1 (saveWorldPreview_catches_std_exception failing_disk)
             (mkEnv [] tt) "cannot open file"%string
             (mkEnv [Info "saving world preview"] tt)).
    vm_compute. reflexivity.
  - pose proof (proj1 (proj2 (proj2
        (saveWorldPreview_catches_std_exception failing_disk)))
        (mkEnv [] (tt, None)) eq_refl) as H.
    vm_compute in H. vm_compute. destruct H as [H1 H2].
    split; [reflexivity | split; [exact H1 | exact H2]].
Defined.

(** The export is where a failure is handled: over [failing_disk] the
    writer throws, and [saveWorldPreview] returns all the same. *)
Example saveWorldPreview_handles_failure :
  ¬ passes_failures raised (saveWorldPreview (watched failing_disk)).
Proof.
  intros H. specialize (H (mkEnv [] (tt, None)) eq_refl).
  vm_compute in H. discriminate H.
Qed.

(** * Further properties of the plotter *)

(** ** What a sampling tick touches and when it is defined *)

Lemma act_frame d p p' :
  act d p = Ok (tt, p') →
  same_geometry p p' ∧
  (slot p (index p') < length (points p))%nat ∧
  ∀ j, j ≠ slot p (index p') → points p' !! j = points p !! j.
Proof.
  intros Hact.
  apply act_inv in Hact as (r & v & _ & _ & _ & Hslot & ->).
  rewrite written_index. split; [apply written_geometry|].
  split; [unfold slot; lia|].
  intros j Hj. rewrite written_points. now apply list_lookup_insert_ne.
Qed.

(** X1: a sampling tick that returns writes one slot inside the buffer and
    nothing else: every other slot, the length of the buffer and the whole
    geometry are as before. *)
Theorem act_changes_one_slot d p p' :
  act d p = Ok (tt, p') →
  same_geometry p p' ∧
  (slot p (index p') < length (points p))%nat ∧
  ∀ j, j ≠ slot p (index p') → points p' !! j = points p !! j.
Proof. exact (act_frame d p p'). Qed.

Lemma act_changes_one_slot_witness :
  same_geometry four_samples_plotter sampled_plotter ∧
  (slot four_samples_plotter (index sampled_plotter)
   < length (points four_samples_plotter))%nat ∧
  ∀ j, j ≠ slot four_samples_plotter (index sampled_plotter) →
       points sampled_plotter !! j = points four_samples_plotter !! j.
Proof.
  apply (act_changes_one_slot (ratio 3 100) four_samples_plotter sampled_plotter).
  vm_compute. reflexivity.
Defined.

(** X2: a sampling tick returns exactly when the width is not zero, the
    advanced cursor is an [int], the product converts to [int] and the
    subscript [index % dmwidth] falls inside the buffer. *)
Theorem act_defined_iff d p :
  (∃ p', act d p = Ok (tt, p')) ↔
  dmwidth p ≠ 0 ∧
  INT_MIN ≤ index p + Z.rem 1 (dmwidth p) ≤ INT_MAX ∧
  castable p d ∧
  ¬ (index p + Z.rem 1 (dmwidth p) = INT_MIN ∧ dmwidth p = -1) ∧
  0 ≤ Z.rem (index p + Z.rem 1 (dmwidth p)) (dmwidth p)
    < Z.of_nat (length (points p)).
Proof.
  split.
  - intros [p' Hact]. rewrite act_unfold in Hact.
    destruct (int_rem 1 (dmwidth p)) as [r|] eqn:Hr; [|discriminate].
    apply int_rem_inv in Hr as [-> Hw].
    destruct (int_add _ _) as [i'|] eqn:Hi; [|discriminate].
    apply int_add_inv in Hi as [-> Hrange].
    destruct (int_of_float _) as [v|] eqn:Hv; [|discriminate].
    destruct (int_rem _ _) as [j|] eqn:Hj; [|discriminate].
    assert (Hmin : ¬ (index p + Z.rem 1 (dmwidth p) = INT_MIN ∧ dmwidth p = -1)).
    { intros [E1 E2]. unfold int_rem in Hj. rewrite E1, E2 in Hj. discriminate. }
    apply int_rem_inv in Hj as [-> _].
    unfold store_point in Hact. cbn in Hact.
    destruct (Z.leb_spec 0 (Z.rem (index p + Z.rem 1 (dmwidth p)) (dmwidth p)));
      [|discriminate].
    destruct (Z.ltb_spec (Z.rem (index p + Z.rem 1 (dmwidth p)) (dmwidth p))
                (Z.of_nat (length (points p)))); [|discriminate].
    repeat split; auto; try lia. now exists v.
  - intros (Hw & Hrange & [v Hv] & Hmin & Hslot).
    rewrite act_unfold. unfold int_rem at 1.
    destruct (Z.eqb_spec (dmwidth p) 0); [contradiction|].
    replace (1 =? INT_MIN) with false by reflexivity. cbn [andb].
    rewrite int_add_Ok, Hv by exact Hrange. unfold int_rem.
    destruct (Z.eqb_spec (dmwidth p) 0); [contradiction|].
    destruct (Z.eqb_spec (index p + Z.rem 1 (dmwidth p)) INT_MIN) as [E1|_];
      destruct (Z.eqb_spec (dmwidth p) (-1)) as [E2|_]; cbn [andb];
      try (exfalso; apply Hmin; now split).
    all: unfold store_point; cbn;
      destruct (Z.leb_spec 0 (Z.rem (index p + Z.rem 1 (dmwidth p)) (dmwidth p))); [|lia];
      destruct (Z.ltb_spec (Z.rem (index p + Z.rem 1 (dmwidth p)) (dmwidth p))
                  (Z.of_nat (length (points p)))); [|lia];
      eexists; reflexivity.
Qed.

Lemma act_defined_iff_witness :
  ∃ p', act (ratio 3 100) four_samples_plotter = Ok (tt, p').
Proof.
  apply (proj2 (act_defined_iff (ratio 3 100) four_samples_plotter)).
  repeat split; try (vm_compute; discriminate).
  - exists 30. vm_compute. reflexivity.
  - intros [E _]. vm_compute in E. discriminate.
Defined.

Lemma fmul_not_finite d m :
  d = S754_nan ∨ m = S754_nan ∨ (∃ s, d = S754_infinity s) →
  float_value (fmul d m) = None.
Proof.
  intros [->|[->|[s ->]]].
  - reflexivity.
  - destruct d; reflexivity.
  - destruct m; reflexivity.
Qed.

(** X3: a sample that is NaN or infinite, or a NaN scale factor, gives the
    tick no defined result: the conversion of the product to [int] is
    undefined, whatever the state of the plotter. *)
Theorem act_undefined_on_non_finite d p :
  well_formed p → cursor_after p 1 ≤ INT_MAX →
  d = S754_nan ∨ multiplier p = S754_nan ∨ (∃ s, d = S754_infinity s) →
  act d p = Undefined FloatToIntRange.
Proof.
  intros (Hw & Hlen & Hi & Hmax) Hroom Hd. unfold cursor_after in Hroom.
  pose proof (rem_1_bounds (dmwidth p) Hw).
  rewrite act_unfold, int_rem_Ok by lia.
  rewrite int_add_Ok by (unfold INT_MIN, INT_MAX in *; lia).
  unfold int_of_float. now rewrite fmul_not_finite.
Qed.

Lemma act_undefined_on_non_finite_witness :
  act (S754_infinity false) example_plotter = Undefined FloatToIntRange.
Proof.
  apply (act_undefined_on_non_finite (S754_infinity false) example_plotter).
  - exact example_plotter_well_formed.
  - vm_compute. discriminate.
  - right. right. now exists false.
Defined.

(** ** Slots between wraps *)

Lemma run_untouched ds :
  ∀ p j, well_formed p → Forall (castable p) ds →
    cursor_after p (length ds) ≤ INT_MAX →
    (∀ t : nat, (1 ≤ t ≤ length ds)%nat → slot p (cursor_after p t) ≠ j) →
    ∀ p', run ds p = Ok (tt, p') → points p' !! j = points p !! j.
Proof.
  induction ds as [|d ds IH] using rev_ind; intros p j Hwf Hcast Hroom Hfree p' Hrun.
  - injection Hrun as <-. reflexivity.
  - pose proof Hwf as (Hw & _).
    pose proof (rem_1_bounds (dmwidth p) Hw) as Hr.
    apply Forall_app in Hcast as [Hcast Hd].
    rewrite length_app in Hroom, Hfree. cbn [length] in Hroom, Hfree.
    assert (Hroom1 : cursor_after p (length ds) ≤ INT_MAX)
      by (unfold cursor_after in *; nia).
    destruct (run_contents ds p Hwf Hcast Hroom1) as (p1 & Hrun1 & Hidx & Hgeo & _).
    rewrite run_app, Hrun1, run_single in Hrun.
    pose proof Hgeo as (_ & Hw1 & _).
    pose proof (act_inv _ _ _ Hrun) as (r & v & Hrem & _ & _ & _ & Hp').
    apply int_rem_inv in Hrem as [Er _].
    destruct (act_frame _ _ _ Hrun) as (_ & _ & Hother).
    rewrite Hother.
    + apply (IH p j); auto. intros t Ht. apply Hfree. lia.
    + rewrite Hp', written_index, Er. unfold slot. rewrite Hw1, Hidx.
      specialize (Hfree (length ds + 1)%nat). unfold slot, cursor_after in *.
      replace (index p + Z.of_nat (length ds) * Z.rem 1 (dmwidth p) + Z.rem 1 (dmwidth p))
        with (index p + Z.of_nat (length ds + 1) * Z.rem 1 (dmwidth p)) by nia.
      intros E. apply Hfree; [lia|]. now symmetry.
Qed.

(** X4: the first W - 1 sampling ticks never write the slot under the
    initial cursor: the first sample lands one slot further, and what the
    buffer held at the cursor stays until the W-th tick. *)
Theorem first_ticks_spare_initial_slot ds p :
  well_formed p → Forall (castable p) ds →
  cursor_after p (length ds) ≤ INT_MAX →
  Z.of_nat (length ds) < dmwidth p →
  ∃ p', run ds p = Ok (tt, p') ∧
        points p' !! slot p (index p) = points p !! slot p (index p).
Proof.
  intros Hwf Hcast Hroom Hshort.
  destruct (run_contents ds p Hwf Hcast Hroom) as (p' & Hrun & _).
  exists p'. split; [exact Hrun|].
  apply (run_untouched ds p); auto.
  intros t Ht. destruct Hwf as (Hw & _ & Hi & _).
  unfold slot, cursor_after. rewrite rem_1 by lia.
  destruct (Z.eqb_spec (dmwidth p) 1); [lia|].
  intros E. apply Z2Nat.inj in E; try (apply rem_slot; lia).
  symmetry in E. revert E.
  replace (index p + Z.of_nat t * 1) with (index p + Z.of_nat t) by lia.
  apply rem_shift_ne; lia.
Qed.

Lemma first_ticks_spare_initial_slot_witness :
  ∃ p', run (take 4 example_samples) example_plotter = Ok (tt, p') ∧
        points p' !! slot example_plotter (index example_plotter)
        = points example_plotter !! slot example_plotter (index example_plotter).
Proof.
  apply (first_ticks_spare_initial_slot (take 4 example_samples) example_plotter).
  - exact example_plotter_well_formed.
  - repeat constructor; eexists; vm_compute; reflexivity.
  - vm_compute. discriminate.
  - vm_compute. reflexivity.
Defined.

(** X5: a plotter of width 1 never moves its cursor (1 % 1 is 0) and its
    single slot always holds the magnitude of the latest sample. *)
Theorem single_slot_holds_latest ds d p :
  well_formed p → dmwidth p = 1 → Forall (castable p) (ds ++ [d]) →
  ∃ p' m, run (ds ++ [d]) p = Ok (tt, p') ∧ index p' = index p ∧
          magnitude p d = Ok m ∧ points p' = [m].
Proof.
  intros Hwf Hw Hcast. pose proof Hwf as (_ & Hlen & _ & Hmax).
  destruct (run_contents (ds ++ [d]) p Hwf Hcast) as (p' & Hrun & Hidx & Hgeo & Hrecent).
  { unfold cursor_after. rewrite Hw. change (Z.rem 1 1) with 0. lia. }
  destruct (Hrecent (length ds) d) as (m & Hmag & Hm).
  { rewrite lookup_app_r, Nat.sub_diag by lia. reflexivity. }
  { rewrite length_app. cbn. lia. }
  exists p', m. split; [exact Hrun|].
  split; [rewrite Hidx; unfold cursor_after; rewrite Hw; change (Z.rem 1 1) with 0; lia|].
  split; [exact Hmag|].
  destruct Hgeo as (_ & _ & _ & _ & _ & _ & Hl).
  unfold slot in Hm. rewrite Hw, Z.rem_1_r in Hm. cbn in Hm.
  destruct (points p') as [|x [|y l]]; cbn in Hl, Hm; try lia.
  now injection Hm as ->.
Qed.

Lemma single_slot_holds_latest_witness :
  ∃ p' m, run ([ratio 1 100] ++ [ratio 9 100]) (fresh 1 100 (float_of_int 1000) 16)
          = Ok (tt, p') ∧
          index p' = index (fresh 1 100 (float_of_int 1000) 16) ∧
          magnitude (fresh 1 100 (float_of_int 1000) 16) (ratio 9 100) = Ok m ∧
          points p' = [m].
Proof.
  apply (single_slot_holds_latest [ratio 1 100] (ratio 9 100)
           (fresh 1 100 (float_of_int 1000) 16)).
  - vm_compute. intuition discriminate.
  - reflexivity.
  - repeat constructor; eexists; vm_compute; reflexivity.
Defined.

(** ** Order of magnitudes *)

Lemma div_cross_mono n1 d1 n2 d2 :
  0 ≤ n1 → 0 < d1 → 0 < d2 → n1 * d2 ≤ n2 * d1 → n1 / d1 ≤ n2 / d2.
Proof.
  intros Hn Hd1 Hd2 Hle. apply Z.div_le_lower_bound; [lia|].
  pose proof (Z.mul_div_le n1 d1 Hd1). nia.
Qed.

Lemma Qtrunc_mono q1 q2 : (q1 <= q2)%Q → Qtrunc q1 ≤ Qtrunc q2.
Proof.
  destruct q1 as [n1 d1], q2 as [n2 d2]. unfold Qle, Qtrunc. cbn. intros Hle.
  destruct (Z_le_gt_dec 0 n1) as [H1|H1], (Z_le_gt_dec 0 n2) as [H2|H2].
  - rewrite !Z.quot_div_nonneg by lia. apply div_cross_mono; lia.
  - nia.
  - replace n1 with (- - n1) by lia. rewrite Z.quot_opp_l by lia.
    rewrite !Z.quot_div_nonneg by lia.
    pose proof (Z.div_pos (- n1) (Z.pos d1)). pose proof (Z.div_pos n2 (Z.pos d2)). lia.
  - replace n1 with (- - n1) by lia. replace n2 with (- - n2) by lia.
    rewrite (Z.quot_opp_l (- n1)), (Z.quot_opp_l (- n2)) by lia.
    rewrite !Z.quot_div_nonneg by lia.
    enough (- n2 / Z.pos d2 ≤ - n1 / Z.pos d1) by lia.
    apply div_cross_mono; lia.
Qed.

(** X6: the stored magnitude follows the order of the products: of two
    samples, the one with the larger product [delta * multiplier] never
    gets the smaller magnitude. *)
Theorem magnitude_monotone p d1 d2 q1 q2 m1 m2 :
  float_value (fmul d1 (multiplier p)) = Some q1 →
  float_value (fmul d2 (multiplier p)) = Some q2 →
  (q1 <= q2)%Q →
  magnitude p d1 = Ok m1 → magnitude p d2 = Ok m2 →
  m1 ≤ m2.
Proof.
  intros H1 H2 Hle. unfold magnitude, int_of_float. rewrite H1, H2.
  destruct (in_int (Qtrunc q1)); [|discriminate].
  destruct (in_int (Qtrunc q2)); [|discriminate].
  intros [= <-] [= <-]. apply Qtrunc_mono in Hle. lia.
Qed.

Lemma magnitude_monotone_witness : 30 ≤ 90.
Proof.
  apply (magnitude_monotone example_plotter (ratio 3 100) (ratio 9 100)
           (15728640 # 524288) (11796480 # 131072) 30 90);
    vm_compute; try reflexivity; discriminate.
Defined.

(** ** How much a render tick draws *)

Lemma length_strides s hi n :
  0 < s → ∀ y, hi - y ≤ Z.of_nat n * s →
  length (strides n y s hi) = Z.to_nat ((hi - y + s - 1) / s).
Proof.
  intros Hs. induction n as [|n IH]; intros y Hfuel; cbn [strides].
  - cbn. assert ((hi - y + s - 1) / s < 1) by (apply Z.div_lt_upper_bound; lia). lia.
  - destruct (Z.ltb_spec y hi).
    + cbn [length]. rewrite IH by lia.
      replace (hi - y + s - 1) with (hi - (y + s) + s - 1 + 1 * s) by lia.
      rewrite Z.div_add by lia.
      assert (0 ≤ (hi - (y + s) + s - 1) / s) by (apply Z.div_pos; lia). lia.
    + cbn. assert ((hi - y + s - 1) / s < 1) by (apply Z.div_lt_upper_bound; lia). lia.
Qed.

Lemma length_rows h s : 0 < s → length (rows h s) = Z.to_nat ((h + s - 1) / s).
Proof.
  intros Hs. unfold rows. rewrite length_strides by nia. do 2 f_equal. lia.
Qed.

(** X7: a render tick on a drawable plotter draws, in this order,
    dmwidth - 1 bars, one outline, one tick mark for every 16 rows of height
    (rounded up) and one label for every labelsInterval rows (rounded up);
    with a height of 0 or less it draws neither tick marks nor labels. *)
Theorem draw_call_counts p :
  drawable p →
  ∀ b, ∃ b', draw (p, b) = Ok (tt, (p, b')) ∧
    calls b' = calls b ++ bars p ++ outline p ::
                 (tick p <$> rows (dmheight p) 16) ++ labels p ∧
    length (bars p) = Z.to_nat (dmwidth p - 1) ∧
    length (tick p <$> rows (dmheight p) 16) = Z.to_nat ((dmheight p + 15) / 16) ∧
    length (labels p)
    = Z.to_nat ((dmheight p + labelsInterval p - 1) / labelsInterval p) ∧
    (dmheight p ≤ 0 → calls b' = calls b ++ bars p ++ [outline p]).
Proof.
  intros Hp b. pose proof Hp as (_ & _ & Hli & _).
  exists (painted p b). split; [now apply draw_frame|]. split; [reflexivity|].
  split; [unfold bars; now rewrite length_fmap, length_seqZ|].
  split; [rewrite length_fmap, length_rows by lia; do 2 f_equal; lia|].
  split; [unfold labels; now rewrite length_fmap, length_rows by lia|].
  intros Hh. cbn [painted calls]. unfold frame, labels, rows.
  replace (Z.to_nat (dmheight p)) with 0%nat by lia. reflexivity.
Qed.

Lemma draw_call_counts_witness :
  ∃ b', draw (sampled_plotter, blank) = Ok (tt, (sampled_plotter, b')) ∧
    calls b' = calls blank ++ bars sampled_plotter ++ outline sampled_plotter ::
                 (tick sampled_plotter <$> rows (dmheight sampled_plotter) 16)
                 ++ labels sampled_plotter ∧
    length (bars sampled_plotter) = Z.to_nat (dmwidth sampled_plotter - 1) ∧
    length (tick sampled_plotter <$> rows (dmheight sampled_plotter) 16)
    = Z.to_nat ((dmheight sampled_plotter + 15) / 16) ∧
    length (labels sampled_plotter)
    = Z.to_nat ((dmheight sampled_plotter + labelsInterval sampled_plotter - 1)
                / labelsInterval sampled_plotter) ∧
    (dmheight sampled_plotter ≤ 0 →
     calls b' = calls blank ++ bars sampled_plotter ++ [outline sampled_plotter]).
Proof.
  apply (draw_call_counts sampled_plotter sampled_plotter_drawable blank).
Defined.

(** ** Sampling and rendering together *)

(** X8: sampling keeps the plotter drawable: after any number of sampling
    ticks on a drawable plotter (the products convertible, the cursor
    leaving room below INT_MAX) a render tick returns and draws the frame of
    the new state. *)
Theorem sampling_keeps_drawable ds p :
  drawable p → Forall (castable p) ds →
  cursor_after p (length ds) + dmwidth p ≤ INT_MAX →
  ∃ p', run ds p = Ok (tt, p') ∧ drawable p' ∧
        ∀ b, draw (p', b) = Ok (tt, (p', painted p' b)).
Proof.
  intros (Hwf & Hroom & Hli & Hlabels & Hticks) Hcast Hcursor.
  pose proof Hwf as (Hw & Hlen & Hi & Hmax).
  pose proof (rem_1_bounds (dmwidth p) Hw) as Hr.
  destruct (run_contents ds p Hwf Hcast) as (p' & Hrun & Hidx & Hgeo & _); [lia|].
  destruct Hgeo as (_ & Hw' & Hh' & Hli' & _ & _ & Hl').
  assert (Hp' : drawable p').
  { unfold drawable, well_formed. rewrite Hw', Hh', Hli', Hl', Hidx.
    unfold cursor_after in *. repeat split; auto; nia. }
  exists p'. split; [exact Hrun|]. split; [exact Hp'|].
  intros b. now apply draw_frame.
Qed.

Lemma sampling_keeps_drawable_witness :
  ∃ p', run example_samples example_plotter = Ok (tt, p') ∧ drawable p' ∧
        ∀ b, draw (p', b) = Ok (tt, (p', painted p' b)).
Proof.
  apply (sampling_keeps_drawable example_samples example_plotter).
  - vm_compute. intuition discriminate.
  - exact example_samples_castable.
  - vm_compute. discriminate.
Defined.

(** X9: after N >= W sampling ticks the bars of a render tick run through
    the samples in the order they were taken: column c (1 <= c < W) shows
    the magnitude of tick N - W + c, so the leftmost bar is the oldest
    sample still in the buffer and the rightmost the one before the
    newest. *)
Theorem bars_in_order_of_sampling ds p :
  2 ≤ dmwidth p → well_formed p → Forall (castable p) ds →
  index p + Z.of_nat (length ds) ≤ INT_MAX →
  dmwidth p ≤ Z.of_nat (length ds) →
  ∃ p', run ds p = Ok (tt, p') ∧
    ∀ c d, 1 ≤ c < dmwidth p →
      ds !! Z.to_nat (Z.of_nat (length ds) - dmwidth p + c - 1) = Some d →
      ∃ m, magnitude p d = Ok m ∧
           bars p' !! Z.to_nat (c - 1) = Some (column_bar p' c m).
Proof.
  intros Hw2 Hwf Hcast Hroom Hfull. pose proof Hwf as (Hw & Hlen & Hi & Hmax).
  assert (Hr : Z.rem 1 (dmwidth p) = 1).
  { rewrite rem_1 by lia. destruct (Z.eqb_spec (dmwidth p) 1); lia. }
  destruct (run_contents ds p Hwf Hcast) as (p' & Hrun & Hidx & Hgeo & Hrecent).
  { unfold cursor_after. rewrite Hr. lia. }
  destruct Hgeo as (_ & Hw' & _).
  unfold cursor_after in Hidx. rewrite Hr in Hidx.
  exists p'. split; [exact Hrun|].
  intros c d Hc Hd.
  destruct (Hrecent _ d Hd) as (m & Hmag & Hm); [lia|].
  exists m. split; [exact Hmag|].
  unfold bars. rewrite list_lookup_fmap, lookup_seqZ_lt by lia. cbn.
  replace (1 + Z.of_nat (Z.to_nat (c - 1))) with c by lia.
  do 2 f_equal. unfold point_at, slot. rewrite Hw', Hidx.
  unfold slot, cursor_after in Hm. rewrite Hr in Hm.
  replace (index p + Z.of_nat (length ds) * 1 + c)
    with (index p + Z.of_nat (S (Z.to_nat (Z.of_nat (length ds) - dmwidth p + c - 1))) * 1
          + dmwidth p) by lia.
  rewrite rem_add_width by lia. now rewrite Hm.
Qed.

Lemma bars_in_order_of_sampling_witness :
  ∃ p', run example_samples example_plotter = Ok (tt, p') ∧
    ∀ c d, 1 ≤ c < 5 →
      example_samples !! Z.to_nat (5 - 5 + c - 1) = Some d →
      ∃ m, magnitude example_plotter d = Ok m ∧
           bars p' !! Z.to_nat (c - 1) = Some (column_bar p' c m).
Proof.
  apply (bars_in_order_of_sampling example_samples example_plotter).
  - vm_compute. discriminate.
  - exact example_plotter_well_formed.
  - exact example_samples_castable.
  - vm_compute. discriminate.
  - vm_compute. discriminate.
Defined.

(** ** The highlighted row for any label interval *)

(** X10: the highlighted label is the one of row number current_point / 16
    (truncating), whatever the label interval: row
    labelsInterval * (current_point / 16) when it lies below the height,
    none otherwise.  A magnitude between -16 and 16 therefore highlights the
    bottom row, also when it is negative. *)
Theorem highlight_follows_sixteenths p :
  drawable p →
  List.filter highlighted (frame p)
  = (if (0 <=? Z.quot (current_point p) 16) &&
        (Z.quot (current_point p) 16 * labelsInterval p <? dmheight p)
     then [label p (Z.quot (current_point p) 16 * labelsInterval p)] else []) ∧
  (0 < dmheight p → -16 < current_point p < 16 →
   List.filter highlighted (frame p) = [label p 0]).
Proof.
  intros (_ & _ & Hli & _).
  rewrite filter_highlighted_frame, filter_rows_matching by exact Hli. cbn zeta.
  split; [destruct (_ && _); reflexivity|].
  intros Hh Hcp.
  assert (Hq : Z.quot (current_point p) 16 = 0).
  { apply Z.quot_small_iff; lia. }
  rewrite Hq, Z.mul_0_l. cbn [Z.leb Z.compare andb].
  destruct (Z.ltb_spec 0 (dmheight p)); [reflexivity|lia].
Qed.

Lemma negative_plotter_drawable : drawable negative_plotter.
Proof. vm_compute. intuition discriminate. Defined.

Lemma highlight_follows_sixteenths_witness :
  List.filter highlighted (frame negative_plotter) = [label negative_plotter 0].
Proof.
  apply (proj2 (highlight_follows_sixteenths negative_plotter negative_plotter_drawable)).
  - vm_compute. reflexivity.
  - vm_compute. intuition discriminate.
Defined.

Example negative_plotter_reached :
  act (ratio (-1) 100) example_plotter = Ok (tt, negative_plotter).
Proof. vm_compute. reflexivity. Qed.

(** ** States in which a render tick has no defined result *)

Lemma bind_undefined_keeps {A B} (m : M World A) (k : A → M World B) p :
  keeps_plotter m → (∀ a b, ∃ f, k a (p, b) = Undefined f) →
  ∀ b, ∃ f, (m ≫= k) (p, b) = Undefined f.
Proof.
  intros Hm Hk b. unfold mbind, M_bind.
  destruct (m (p, b)) as [[a [p1 b1]]|f] eqn:E; [|now exists f].
  apply Hm in E. cbn in E. subst p1. apply Hk.
Qed.

Lemma draw_label_keeps pos cp y : keeps_plotter (draw_label pos cp y).
Proof. unfold draw_label. auto 30 with keeps. Qed.

Lemma label_loop_never_returns pos cp p :
  0 < dmheight p → labelsInterval p ≤ 0 →
  ∀ n y b, y ≤ 0 →
  ∃ f, for_loop n
         (λ y, h ← self (gets dmheight); mret (y <? h))
         (λ y, li ← self (gets labelsInterval); lift (int_add y li))
         (draw_label pos cp) y (p, b) = Undefined f.
Proof.
  intros Hh Hli. induction n as [|n IH]; intros y b Hy.
  - now eexists.
  - rewrite for_loop_S.
    unfold mbind at 1, M_bind at 1, mret, M_ret, self at 1, gets at 1. cbn [fst snd].
    destruct (Z.ltb_spec y (dmheight p)); [|lia].
    destruct (draw_label pos cp y (p, b)) as [[[] [p1 b1]]|f] eqn:E; [|now exists f].
    apply draw_label_keeps in E. cbn in E. subst p1.
    unfold mbind, M_bind, self, gets, lift. cbn [fst snd].
    destruct (int_add y (labelsInterval p)) as [y'|f] eqn:Ey; [|now exists f].
    apply int_add_inv in Ey as [-> _]. apply IH. lia.
Qed.

Lemma draw_labels_never_returns pos cp p :
  0 < dmheight p → labelsInterval p ≤ 0 →
  ∀ b, ∃ f, draw_labels pos cp (p, b) = Undefined f.
Proof.
  intros Hh Hli b. unfold draw_labels.
  unfold mbind at 1, M_bind at 1, self at 1, gets at 1. cbn [fst snd].
  now apply label_loop_never_returns.
Qed.

Lemma draw_bars_keeps pos : keeps_plotter (draw_bars pos).
Proof. unfold draw_bars, draw_bar. auto 30 with keeps. Qed.

Lemma draw_outline_keeps pos : keeps_plotter (draw_outline pos).
Proof. unfold draw_outline. auto 30 with keeps. Qed.

Lemma draw_ticks_keeps pos : keeps_plotter (draw_ticks pos).
Proof. unfold draw_ticks, draw_tick. auto 30 with keeps. Qed.

(** X11: with a width of 0, or with a positive height and a label interval
    of 0 or less, a render tick has no defined result on any surface: the
    subscript [index % dmwidth] divides by zero, the label loop divides by
    zero or never reaches the height. *)
Theorem draw_undefined_without_width_or_interval p :
  dmwidth p = 0 ∨ (0 < dmheight p ∧ labelsInterval p ≤ 0) →
  ∀ b, ∃ f, draw (p, b) = Undefined f.
Proof.
  intros H. unfold draw.
  apply bind_undefined_keeps; [unfold calcPos; auto with keeps|intros pos].
  apply bind_undefined_keeps; [auto with keeps|intros _].
  apply bind_undefined_keeps; [auto with keeps|intros _].
  apply bind_undefined_keeps; [apply draw_bars_keeps|intros _].
  apply bind_undefined_keeps; [apply draw_outline_keeps|intros _].
  apply bind_undefined_keeps; [apply draw_ticks_keeps|intros _ b].
  unfold mbind, M_bind, self, gets, lift. cbn [fst snd].
  destruct (int_rem (index p) (dmwidth p)) as [j|f] eqn:Ej; [|now exists f].
  destruct H as [Hw|[Hh Hli]].
  - unfold int_rem in Ej. rewrite Hw in Ej. discriminate.
  - unfold load_point. cbn [fst snd].
    destruct (0 <=? j); [|eexists; reflexivity].
    destruct (points p !! Z.to_nat j); [|eexists; reflexivity].
    now apply draw_labels_never_returns.
Qed.

Lemma draw_undefined_without_width_or_interval_witness :
  ∃ f, draw (unlabelled_plotter, blank) = Undefined f.
Proof.
  apply (draw_undefined_without_width_or_interval unlabelled_plotter).
  right. vm_compute. intuition discriminate.
Defined.

Example draw_zero_interval_fault :
  draw (unlabelled_plotter, blank) = Undefined DivisionByZero.
Proof. vm_compute. reflexivity. Qed.

(** ** The end of the cursor's range *)

Lemma run_index_inv ds :
  ∀ p p', 1 < dmwidth p → run ds p = Ok (tt, p') →
    index p' = index p + Z.of_nat (length ds) ∧
    (ds ≠ [] → index p' ≤ INT_MAX).
Proof.
  induction ds as [|d ds IH]; intros p p' Hw Hrun.
  - injection Hrun as <-. split; [cbn; lia|congruence].
  - cbn [run] in Hrun. unfold mbind, M_bind in Hrun.
    destruct (act d p) as [[[] p1]|] eqn:Hact; [|discriminate].
    apply act_inv in Hact as (r & v & Hr & Hrange & _ & _ & ->).
    apply int_rem_inv in Hr as [-> _]. rewrite rem_1 in * by lia.
    destruct (Z.eqb_spec (dmwidth p) 1); [lia|].
    apply IH in Hrun as [Hidx Hmax]; [|exact Hw].
    rewrite written_index in Hidx. cbn [length]. split; [lia|].
    intros _. destruct ds as [|d' ds']; [cbn in Hidx; lia|].
    apply Hmax. congruence.
Qed.

(** X15: with more than one slot the stored cursor only grows, so the
    plotter takes a bounded number of sampling ticks: a run that would carry
    the cursor past INT_MAX has no defined result, whatever the samples. *)
Theorem cursor_runs_out ds p :
  1 < dmwidth p → index p ≤ INT_MAX →
  INT_MAX < index p + Z.of_nat (length ds) →
  ∃ f, run ds p = Undefined f.
Proof.
  intros Hw Hint Hpast.
  destruct (run ds p) as [[[] p']|f] eqn:Hrun; [|now exists f].
  apply run_index_inv in Hrun as [Hidx Hmax]; [|exact Hw].
  destruct ds as [|d ds]; [cbn in Hpast; lia|].
  assert (index p' ≤ INT_MAX) by (apply Hmax; congruence). lia.
Qed.

Lemma cursor_runs_out_witness :
  ∃ f, run [ratio 1 100] (set_index INT_MAX example_plotter) = Undefined f.
Proof.
  apply (cursor_runs_out [ratio 1 100] (set_index INT_MAX example_plotter)).
  - vm_compute. reflexivity.
  - vm_compute. discriminate.
  - vm_compute. reflexivity.
Defined.

(** * Further properties of the level screen *)

Lemma keeps_flags_ret {R A} (a : A) : keeps_flags (mret a : X (Screen R) A).
Proof. intros s r s' [= _ <-]. reflexivity. Qed.

Lemma keeps_flags_bind {R A B} (m : X (Screen R) A) (k : A → X (Screen R) B) :
  keeps_flags m → (∀ a, keeps_flags (k a)) → keeps_flags (m ≫= k).
Proof.
  intros Hm Hk s r s'. unfold mbind, X_bind.
  destruct (m s) as [[a|e] s1] eqn:E.
  - intros Hb. rewrite (Hk a _ _ _ Hb). exact (Hm _ _ _ E).
  - intros [= _ <-]. exact (Hm _ _ _ E).
Qed.

Lemma keeps_flags_in_env {R A} (m : X (Env R) A) : keeps_flags (LevelScreen.in_env m).
Proof.
  intros s r s'. unfold LevelScreen.in_env. destruct (m (env s)) as [r1 e1].
  intros [= _ <-]. reflexivity.
Qed.

Lemma keeps_flags_ask {R A} (q : R → A) : keeps_flags (LevelScreen.ask q).
Proof. intros s r s' [= _ <-]. reflexivity. Qed.

Lemma keeps_flags_flag {R} (f : Flags → bool) : keeps_flags (@LevelScreen.flag R f).
Proof. intros s r s' [= _ <-]. reflexivity. Qed.

Lemma keeps_flags_when {R} (b : bool) (m : X (Screen R) unit) :
  keeps_flags m → keeps_flags (LevelScreen.when b m).
Proof. destruct b; [auto|]. intros _. apply keeps_flags_ret. Qed.

#[local] Hint Resolve keeps_flags_ret keeps_flags_in_env keeps_flags_ask
  keeps_flags_flag : keeps.
#[local] Hint Extern 2 (keeps_flags (_ ≫= _)) =>
  apply keeps_flags_bind; [|intros ?] : keeps.
#[local] Hint Extern 2 (keeps_flags (LevelScreen.when _ _)) =>
  apply keeps_flags_when : keeps.

Lemma update_world_keeps_flags c f delta locked :
  keeps_flags (LevelScreen.update_world c f delta locked).
Proof. unfold LevelScreen.update_world. auto 40 with keeps. Qed.

Lemma close_world_keeps_flags c f : keeps_flags (LevelScreen.close_world c f).
Proof. unfold LevelScreen.close_world. auto 40 with keeps. Qed.

(** X12: while something in the GUI holds the focus, a frame update leaves
    the three switches as they are, whatever keys were just pressed and
    whether the update returns or a collaborator throws. *)
Theorem update_ignores_hotkeys_under_focus c f delta s r s' :
  gui_isFocusCaught f (rest (env s)) = true →
  LevelScreen.update c f delta s = (r, s') →
  flags s' = flags s.
Proof.
  intros Hfocus Hrun. unfold LevelScreen.update in Hrun.
  unfold mbind at 1 2 3 4, X_bind at 1 2 3 4, LevelScreen.ask at 1 2 3 4 in Hrun.
  rewrite Hfocus in Hrun. cbn [negb LevelScreen.when] in Hrun.
  unfold mbind at 1, X_bind at 1, mret, X_ret in Hrun.
  exact (update_world_keeps_flags _ _ _ _ _ _ _ Hrun).
Qed.

Lemma update_ignores_hotkeys_under_focus_witness :
  ∃ s', LevelScreen.update failing_disk focused_frontend (ratio 1 100) running_screen
        = (Returned tt, s') ∧
        flags s' = flags running_screen.
Proof.
  eexists. split; [vm_compute; reflexivity|].
  apply (update_ignores_hotkeys_under_focus failing_disk focused_frontend
           (ratio 1 100) running_screen (Returned tt) _);
    vm_compute; reflexivity.
Defined.

(** X13: when [updateHotkeys] returns, each of the keys O, F1 and F3 has
    flipped exactly its own switch if it was just pressed, and F5 has
    flipped none; without any of the three keys the switches are as
    before. *)
Theorem updateHotkeys_flips_own_switch c f s settings r1 s' :
  engine_getSettings c (rest (env s)) = (Returned settings, r1) →
  LevelScreen.updateHotkeys c f s = (Returned tt, s') →
  flags s' =
  mkFlags (xorb (frustumCulling (flags s)) (Events_jpressed f key_O r1))
          (xorb (hudVisible (flags s)) (Events_jpressed f key_F1 r1))
          (xorb (debug (flags s)) (Events_jpressed f key_F3 r1)).
Proof.
  intros Hsettings Hrun. unfold LevelScreen.updateHotkeys in Hrun.
  unfold mbind, X_bind, LevelScreen.in_env, LevelScreen.ask, call in Hrun.
  rewrite Hsettings in Hrun. destruct s as [[fc hv dbg] e]. cbn in Hrun.
  cbn [flags frustumCulling hudVisible debug].
  repeat match type of Hrun with
    | context [Events_jpressed f ?k ?r] =>
        destruct (Events_jpressed f k r); cbn in Hrun
    | context [controller_getPlayer c ?r] =>
        destruct (controller_getPlayer c r) as [[?|?] ?]; cbn in Hrun
    | context [chunks_saveAndClear f ?r] =>
        destruct (chunks_saveAndClear f r) as [[?|?] ?]; cbn in Hrun
    end;
    try discriminate; inversion Hrun; destruct fc, hv, dbg; reflexivity.
Qed.

Lemma updateHotkeys_flips_own_switch_witness :
  ∃ s', LevelScreen.updateHotkeys failing_disk quiet_frontend running_screen
        = (Returned tt, s') ∧
        flags s' = mkFlags (xorb true true) (xorb true true) (xorb false false).
Proof.
  eexists. split; [vm_compute; reflexivity|].
  apply (updateHotkeys_flips_own_switch failing_disk quiet_frontend running_screen tt tt);
    vm_compute; reflexivity.
Defined.

(** X14: the destructor goes on after a failed export.  When the preview
    export throws a [std::exception], the destructor logs it and then runs
    [on_frontend_close], [onWorldQuit] and [setWorldFolder] exactly as after
    an export that returned; something thrown that is not a
    [std::exception] is not caught, and leaving the destructor it ends the
    program. *)
Theorem destroy_closes_world_after_failed_export c f s :
  (∀ what e', export_preview c (env s) = (Threw (std_exception what), e') →
     LevelScreen.destroy c f s
     = LevelScreen.noexcept (LevelScreen.close_world c f)
         (mkScreen (flags s) (mkEnv (journal e' ++ [Error what]) (rest e')))) ∧
  (∀ e', export_preview c (env s) = (Returned tt, e') →
     LevelScreen.destroy c f s
     = LevelScreen.noexcept (LevelScreen.close_world c f) (mkScreen (flags s) e')) ∧
  (∀ e', export_preview c (env s) = (Threw foreign_throwable, e') →
     LevelScreen.destroy c f s
     = (LevelScreen.Terminated foreign_throwable, mkScreen (flags s) e')).
Proof.
  repeat split; intros;
    unfold LevelScreen.destroy, LevelScreen.noexcept, saveWorldPreview;
    unfold mbind at 1, X_bind at 1, LevelScreen.in_env, try_catch_std;
    cbn beta;
    match goal with H : export_preview _ _ = _ |- _ => rewrite H end; reflexivity.
Qed.

Lemma destroy_closes_world_after_failed_export_witness :
  LevelScreen.destroy failing_disk quiet_frontend running_screen
  = LevelScreen.noexcept (LevelScreen.close_world failing_disk quiet_frontend)
      (mkScreen (flags running_screen)
         (mkEnv ([Info "saving world preview"] ++ [Error "cannot open file"]) tt)).
Proof.
  apply (proj1 (destroy_closes_world_after_failed_export failing_disk quiet_frontend
                  running_screen)
           "cannot open file"%string (mkEnv [Info "saving world preview"] tt)).
  vm_compute. reflexivity.
Defined.

Example destroy_completes_after_failed_export :
  LevelScreen.destroy failing_disk quiet_frontend running_screen
  = (LevelScreen.Completed tt,
     mkScreen (flags running_screen)
       (mkEnv [Info "saving world preview"; Error "cannot open file"] tt)).
Proof. vm_compute. reflexivity. Qed.
